(** * Credential-acquisition engine of the Archestra desktop application

    A shallow embedding of
      - [plugins/mcp-oauth/provider.ts]                   (module [Provider]),
      - [plugins/oauth/utils/supabase-token-extractor.ts] (module [Extractor]),
      - [plugins/oauth/providers/supabase-browser.ts]     (module [Browser]),
    together with the part of the JavaScript platform those files rely on
    (module [JS]: string methods, [Array.prototype.sort], [JSON.stringify];
    module [Url]: the interface of the platform's [URL] class).

    Where a source file holds more than one revision of a module, the
    embedding follows the first one.

    JavaScript strings are modelled as [string]: sequences of code units
    below 256, which covers host names, paths, OAuth scopes and tokens. *)

From Stdlib Require Import Ascii String List Bool Arith Lia.
From stdpp Require Import base option gmap strings list sorting.

Local Open Scope string_scope.

(** ** The JavaScript platform: strings and arrays *)

Module JS.

(** [!!s] for a string: every string but the empty one is truthy. *)
Definition truthy (s : string) : bool := negb (String.eqb s "").

(** [!!v] for a value that is a string, [null] or [undefined]. *)
Definition truthy_opt (v : option string) : bool :=
  match v with
  | Some s => truthy s
  | None => false
  end.

(** [a || b] on such values. *)
Definition or_else (a : option string) (b : string) : string :=
  match a with
  | Some s => if truthy s then s else b
  | None => b
  end.

(** [s.startsWith(searchString)] *)
Definition startsWith (s searchString : string) : bool :=
  String.prefix searchString s.

(** [s.endsWith(searchString)]: the last [searchString.length] code units of
    [s] are compared with [searchString]. *)
Definition endsWith (s searchString : string) : bool :=
  let len := String.length s in
  let searchLength := String.length searchString in
  if Nat.ltb len searchLength then false
  else String.eqb (substring (len - searchLength) searchLength s) searchString.

(** [s.includes(searchString)]: some position of [s] starts an occurrence. *)
Fixpoint includes (s searchString : string) : bool :=
  String.prefix searchString s ||
  match s with
  | EmptyString => false
  | String _ s' => includes s' searchString
  end.

(** [Array.prototype.sort()] without comparator, on an array of strings:
    ascending code-unit order.  The order is total and antisymmetric, so
    the sorted array does not depend on the sorting algorithm. *)
Fixpoint sort_insert (x : string) (l : list string) : list string :=
  match l with
  | [] => [x]
  | y :: l' => if String.leb x y then x :: l else y :: sort_insert x l'
  end.

Definition sort (l : list string) : list string := foldr sort_insert [] l.

(** [JSON.stringify] on an array of strings.  [QuoteJSONString] escapes the
    quote, the backslash and the control characters. *)
Definition hex_digit (n : nat) : ascii :=
  match n with
  | 0 => "0" | 1 => "1" | 2 => "2" | 3 => "3" | 4 => "4" | 5 => "5"
  | 6 => "6" | 7 => "7" | 8 => "8" | 9 => "9" | 10 => "a" | 11 => "b"
  | 12 => "c" | 13 => "d" | 14 => "e" | _ => "f"
  end%char.

Definition quote_char (c : ascii) : string :=
  let n := nat_of_ascii c in
  if Nat.eqb n 8 then "\b"
  else if Nat.eqb n 9 then "\t"
  else if Nat.eqb n 10 then "\n"
  else if Nat.eqb n 12 then "\f"
  else if Nat.eqb n 13 then "\r"
  else if Nat.eqb n 34 then String "\"%char (String c "")
  else if Nat.eqb n 92 then "\\"
  else if Nat.ltb n 32 then
    "\u00" +:+ String (hex_digit (n / 16)) (String (hex_digit (n mod 16)) "")
  else String c "".

Fixpoint quote_body (s : string) : string :=
  match s with
  | EmptyString => EmptyString
  | String c s' => quote_char c +:+ quote_body s'
  end.

Definition dquote : ascii := ascii_of_nat 34.

Definition QuoteJSONString (s : string) : string :=
  String dquote (quote_body s +:+ String dquote "").

Fixpoint stringify_elements (l : list string) : string :=
  match l with
  | [] => "]"
  | [x] => QuoteJSONString x +:+ "]"
  | x :: l' => QuoteJSONString x +:+ "," +:+ stringify_elements l'
  end.

Definition JSON_stringify (l : list string) : string :=
  "[" +:+ stringify_elements l.

(** Reading a quoted string back.  [read_quoted s] expects the characters
    that follow an opening quote; it returns the string they denote and what
    follows the closing quote.  It serves to show that [JSON_stringify]
    loses nothing. *)
Definition hex_value (c : ascii) : nat :=
  let n := nat_of_ascii c in
  if Nat.leb 97 n then n - 87 else n - 48.

Definition cons_fst (c : ascii) (r : option (string * string))
  : option (string * string) :=
  match r with
  | Some (s, rest) => Some (String c s, rest)
  | None => None
  end.

Fixpoint read_quoted (s : string) : option (string * string) :=
  match s with
  | EmptyString => None
  | String c s' =>
      if Ascii.eqb c dquote then Some (EmptyString, s')
      else if Ascii.eqb c "\" then
        match s' with
        | EmptyString => None
        | String e s'' =>
            if Ascii.eqb e "b" then cons_fst (ascii_of_nat 8) (read_quoted s'')
            else if Ascii.eqb e "t" then cons_fst (ascii_of_nat 9) (read_quoted s'')
            else if Ascii.eqb e "n" then cons_fst (ascii_of_nat 10) (read_quoted s'')
            else if Ascii.eqb e "f" then cons_fst (ascii_of_nat 12) (read_quoted s'')
            else if Ascii.eqb e "r" then cons_fst (ascii_of_nat 13) (read_quoted s'')
            else if Ascii.eqb e "u" then
              match s'' with
              | String _ (String _ (String h (String l rest))) =>
                  cons_fst (ascii_of_nat (16 * hex_value h + hex_value l))
                           (read_quoted rest)
              | _ => None
              end
            else cons_fst e (read_quoted s'')
        end
      else cons_fst c (read_quoted s')
  end.

(** [a.join(separator)] on an array of strings. *)
Definition join (l : list string) (separator : string) : string :=
  String.concat separator l.

End JS.

(** ** The platform's [URL] class *)

Module Url.

(** The properties of a [URL] object that the program reads.
    [searchParams] keeps the pairs in the order of the query string. *)
Record URL := mkURL {
  hostname : string;
  pathname : string;
  searchParams : list (string * string)
}.

(** [url.searchParams.get(name)]: the value of the first pair called [name],
    [null] when there is none. *)
Fixpoint searchParams_get (ps : list (string * string)) (name : string)
  : option string :=
  match ps with
  | [] => None
  | (k, v) :: ps' => if String.eqb k name then Some v else searchParams_get ps' name
  end.

(** [new URL(input)] and [new URL(input, base)].  The constructor belongs to
    the platform, not to the repository: it is a parameter of the
    development.  [None] stands for the [TypeError] it throws. *)
Class Parser := { URL_new : string -> option string -> option URL }.

(** A small parser, given as an instance for the examples.  It reads absolute
    http and https URLs and, against a base, scheme-relative and path-absolute
    references, with a lower-case host, an optional port and a query without
    escapes. *)
Fixpoint span (p : ascii -> bool) (s : string) : string * string :=
  match s with
  | EmptyString => (EmptyString, EmptyString)
  | String c s' =>
      if p c then let (a, b) := span p s' in (String c a, b)
      else (EmptyString, s)
  end.

Fixpoint strip_prefix (p s : string) : option string :=
  match p, s with
  | EmptyString, _ => Some s
  | String a p', String b s' => if Ascii.eqb a b then strip_prefix p' s' else None
  | String _ _, EmptyString => None
  end.

Fixpoint split (sep : ascii) (s : string) : list string :=
  match s with
  | EmptyString => [EmptyString]
  | String c s' =>
      if Ascii.eqb c sep then EmptyString :: split sep s'
      else match split sep s' with
           | h :: t => String c h :: t
           | [] => [String c EmptyString]
           end
  end.

Fixpoint forallb_string (p : ascii -> bool) (s : string) : bool :=
  match s with
  | EmptyString => true
  | String c s' => p c && forallb_string p s'
  end.

Definition is_one_of (cs : string) (c : ascii) : bool :=
  existsb (Ascii.eqb c) (list_ascii_of_string cs).

Definition is_digit (c : ascii) : bool :=
  let n := nat_of_ascii c in Nat.leb 48 n && Nat.leb n 57.

Definition is_host_char (c : ascii) : bool :=
  let n := nat_of_ascii c in
  (Nat.leb 97 n && Nat.leb n 122) || is_digit c || is_one_of ".-" c.

Definition parse_pair (seg : string) : string * string :=
  let (k, rest) := span (fun c => negb (Ascii.eqb c "=")) seg in
  match rest with
  | String _ v => (k, v)
  | EmptyString => (k, EmptyString)
  end.

Definition parse_query (q : string) : list (string * string) :=
  map parse_pair (filter (fun seg => seg <> EmptyString) (split "&" q)).

Definition parse_path_query (host rest : string) : URL :=
  let (path, rest1) := span (fun c => negb (is_one_of "?#" c)) rest in
  let query :=
    match rest1 with
    | String "?" q => fst (span (fun c => negb (Ascii.eqb c "#")) q)
    | _ => EmptyString
    end in
  mkURL host (if String.eqb path "" then "/" else path) (parse_query query).

Definition parse_authority (s : string) : option URL :=
  let (host, rest) := span (fun c => negb (is_one_of ":/?#" c)) s in
  let rest' :=
    match rest with
    | String ":" r => snd (span is_digit r)
    | _ => rest
    end in
  if String.eqb host "" then None
  else if negb (forallb_string is_host_char host) then None
  else match rest' with
       | String ":" _ => None
       | _ => Some (parse_path_query host rest')
       end.

Definition parse_absolute (input : string) : option URL :=
  match strip_prefix "https://" input with
  | Some s => parse_authority s
  | None =>
      match strip_prefix "http://" input with
      | Some s => parse_authority s
      | None => None
      end
  end.

Definition reference_URL_new (input : string) (base : option string)
  : option URL :=
  match parse_absolute input with
  | Some u => Some u
  | None =>
      match base with
      | None => None
      | Some b =>
          match parse_absolute b with
          | None => None
          | Some bu =>
              match strip_prefix "//" input with
              | Some s => parse_authority s
              | None =>
                  if JS.startsWith input "/"
                  then Some (parse_path_query (hostname bu) input)
                  else None
              end
          end
      end
  end.

Definition reference : Parser := {| URL_new := reference_URL_new |}.

End Url.

(** ** Effects: an exception and state monad

    [Eff S A] is a computation over a state [S] that returns an [A] or throws.
    Thrown values are [Error] objects, as the source assumes when it reads
    [(error as Error).message] in its handlers. *)

Module Effect.

Record Error := mkError { message : string }.

Inductive result (A : Type) : Type :=
| Ok (a : A)
| Throw (e : Error).
Arguments Ok {A} a.
Arguments Throw {A} e.

Definition Eff (S A : Type) : Type := S -> result A * S.

Definition ret {S A} (a : A) : Eff S A := fun s => (Ok a, s).

Definition throw {S A} (e : Error) : Eff S A := fun s => (Throw e, s).

Definition bind {S A B} (m : Eff S A) (k : A -> Eff S B) : Eff S B :=
  fun s =>
    match m s with
    | (Ok a, s') => k a s'
    | (Throw e, s') => (Throw e, s')
    end.

(** [try { m } catch (error) { handler(error) }] *)
Definition try_catch {S A} (m : Eff S A) (handler : Error -> Eff S A) : Eff S A :=
  fun s =>
    match m s with
    | (Ok a, s') => (Ok a, s')
    | (Throw e, s') => handler e s'
    end.

Definition get {S} : Eff S S := fun s => (Ok s, s).

Definition modify {S} (f : S -> S) : Eff S unit := fun s => (Ok tt, f s).

(** An awaited call of a collaborator whose outcome is [r]. *)
Definition await {S A} (r : result A) : Eff S A := fun s => (r, s).

End Effect.

Declare Scope eff_scope.
Delimit Scope eff_scope with eff.
Notation "x <- m ;; k" := (Effect.bind m (fun x => k))
  (at level 100, m at next level, right associativity) : eff_scope.
Notation "m ;;; k" := (Effect.bind m (fun _ => k))
  (at level 100, right associativity) : eff_scope.

(** ** JavaScript values handed back by injected scripts *)

Module Value.

#[warnings="-register-all"] Inductive jsval :=
| JUndefined
| JNull
| JBool (b : bool)
| JNumber (n : nat)
| JString (s : string)
| JObject (fields : list (string * jsval)).

(** [!!v] *)
Definition truthy (v : jsval) : bool :=
  match v with
  | JUndefined | JNull => false
  | JBool b => b
  | JNumber n => negb (Nat.eqb n 0)
  | JString s => JS.truthy s
  | JObject _ => true
  end.

Fixpoint field (fields : list (string * jsval)) (name : string) : jsval :=
  match fields with
  | [] => JUndefined
  | (k, v) :: fields' => if String.eqb k name then v else field fields' name
  end.

(** [v.name]: a [TypeError] on [null] and [undefined]; primitives have no
    own property of the names the program reads. *)
Definition get_prop (v : jsval) (name : string) : Effect.result jsval :=
  match v with
  | JUndefined | JNull =>
      Effect.Throw (Effect.mkError "Cannot read properties of null or undefined")
  | JObject fields => Effect.Ok (field fields name)
  | _ => Effect.Ok JUndefined
  end.

End Value.

(** ** [oauth/utils/supabase-token-extractor.ts] *)

Module Extractor.
Import Url.

Definition SUPABASE_TOKEN_EXTRACTION_SCRIPT : string := "
  (function() {
    try {
      console.log('[Supabase Token Extraction] Starting token extraction...');
      console.log('[Supabase Token Extraction] Current URL:', window.location.href);
      
      const hostname = window.location.hostname;
      if (!hostname.includes('supabase.com')) {
        return { success: false, error: 'Not on Supabase domain' };
      }
        
      return { success: true };
      
    } catch (error) {
      return { success: false, error: error.message };
    }
  })();
".

Definition buildSupabaseTokenExtractionScript (projectRef : option string)
  : string :=
  SUPABASE_TOKEN_EXTRACTION_SCRIPT.

Definition isSupabaseDashboardPage (url : string) : bool :=
  JS.includes url "supabase.com/dashboard" || JS.includes url "app.supabase.com".

Definition isSupabaseLoginPage `{Parser} (url : string) : bool :=
  match URL_new url None with
  | Some parsedUrl =>
      JS.includes (hostname parsedUrl) "supabase.com" &&
      (JS.includes (pathname parsedUrl) "/sign-in" ||
       JS.includes (pathname parsedUrl) "/login" ||
       JS.includes (pathname parsedUrl) "/auth" ||
       String.eqb (pathname parsedUrl) "/" ||
       JS.includes (pathname parsedUrl) "/signin")
  | None => false
  end.

Definition isSupabaseAuthenticatedPage `{Parser} (url : string) : bool :=
  match URL_new url None with
  | Some parsedUrl =>
      JS.includes (hostname parsedUrl) "supabase.com" &&
      (JS.startsWith (pathname parsedUrl) "/dashboard/project/" ||
       JS.startsWith (pathname parsedUrl) "/dashboard/projects" ||
       JS.startsWith (pathname parsedUrl) "/dashboard/account" ||
       JS.startsWith (pathname parsedUrl) "/dashboard/settings")
  | None => false
  end.

(** The regular expression
    [/supabase\.com\/dashboard\/project\/([a-zA-Z0-9-_]+)/].
    Its class holds the letters, the digits, the hyphen and the underscore. *)
Definition in_range (lo hi : nat) (c : ascii) : bool :=
  let n := nat_of_ascii c in Nat.leb lo n && Nat.leb n hi.

Definition is_ref_char (c : ascii) : bool :=
  in_range 97 122 c || in_range 65 90 c || in_range 48 57 c ||
  Ascii.eqb c "-" || Ascii.eqb c "_".

(** The greedy [+] has nothing after it in the pattern: it takes the longest
    run of class characters. *)
Fixpoint take_while (p : ascii -> bool) (s : string) : string :=
  match s with
  | EmptyString => EmptyString
  | String c s' => if p c then String c (take_while p s') else EmptyString
  end.

(** A match that starts at the first character of [s]; the result is the
    capture group. *)
Definition project_ref_at (s : string) : option string :=
  match strip_prefix "supabase.com/dashboard/project/" s with
  | Some rest =>
      let group := take_while is_ref_char rest in
      if String.eqb group "" then None else Some group
  | None => None
  end.

(** [s.match(re)] for a pattern without the global flag: the match at the
    leftmost position that has one. *)
Fixpoint regexp_match {A : Type} (match_at : string -> option A) (s : string)
  : option A :=
  match match_at s with
  | Some m => Some m
  | None =>
      match s with
      | EmptyString => None
      | String _ s' => regexp_match match_at s'
      end
  end.

Definition extractProjectRefFromUrl (url : string) : option string :=
  regexp_match project_ref_at url.

Definition buildSupabaseDashboardUrl (projectRef : string) : string :=
  "https://supabase.com/dashboard/project/" +:+ projectRef.

End Extractor.

(** ** [oauth/providers/supabase-browser.ts] *)

Module Browser.
Import Url Effect Value Extractor.
Local Open Scope eff_scope.

Definition navigationRules `{Parser} (url : string) : bool :=
  match URL_new url None with
  | Some parsedUrl =>
      let hostname := hostname parsedUrl in
      String.eqb hostname "supabase.com" ||
      String.eqb hostname "app.supabase.com" ||
      String.eqb hostname "supabase.io" ||
      (JS.endsWith hostname ".supabase.com" &&
       Nat.ltb (String.length ".supabase.com") (String.length hostname)) ||
      (JS.endsWith hostname ".supabase.io" &&
       Nat.ltb (String.length ".supabase.io") (String.length hostname))
  | None => false
  end.

(** The embedded browsing context: the URL it shows and the outcome of
    evaluating a script in its page. *)
Record WebContents := {
  getURL : string;
  executeJavaScript : string -> result jsval
}.

Record Credential := {
  primary_token : jsval;
  project_ref : option string;
  extracted_from : string
}.

Definition tokenScript : string := "
            (function() {
              try {
                // Look for Supabase auth tokens in localStorage
                for (let i = 0; i < localStorage.length; i++) {
                  const key = localStorage.key(i);
                  if (key && (key.startsWith('sb-') || key.includes('supabase'))) {
                    const value = localStorage.getItem(key);
                    if (value) {
                      try {
                        const parsed = JSON.parse(value);
                        
                        // Check for access_token
                        if (parsed.access_token) {
                          return parsed.access_token;
                        }
                        
                        if (parsed.session && parsed.session.access_token) {
                          return parsed.session.access_token;
                        }
                        
                        if (parsed.user && parsed.session && parsed.session.access_token) {
                          return parsed.session.access_token;
                        }
                      } catch (parseError) {
                        continue;
                      }
                    }
                  }
                }
                
                return null;
              } catch (error) {
                return null;
              }
            })();
          ".

(** The state threaded through [extractTokens] is the list of the scripts
    evaluated so far, oldest first. *)
Definition evaluate (webContents : WebContents) (script : string)
  : Eff (list string) jsval :=
  fun evaluated => (executeJavaScript webContents script, (evaluated ++ [script])%list).

Definition extractTokens `{Parser} (webContents : WebContents)
  : Eff (list string) (option Credential) :=
  let url := getURL webContents in
  if isSupabaseLoginPage url then ret None
  else if negb (isSupabaseAuthenticatedPage url) then ret None
  else
    try_catch
      (let projectRef := extractProjectRefFromUrl url in
       let extractionScript := buildSupabaseTokenExtractionScript projectRef in
       result <- evaluate webContents extractionScript ;;
       success <- await (get_prop result "success") ;;
       _ <- await (get_prop result "error") ;;
       accessToken <- try_catch (evaluate webContents tokenScript)
                                (fun _ => ret JNull) ;;
       if Value.truthy success && Value.truthy accessToken
       then ret (Some {| primary_token := accessToken;
                         project_ref := projectRef;
                         extracted_from := url |})
       else ret None)
      (fun _ => ret None).

End Browser.

(** ** [mcp-oauth/provider.ts] *)

Module Provider.
Import Url Effect.
Local Open Scope eff_scope.

(** Arrays are objects.  A configuration holds references to its scope
    arrays, [sort] reorders an array in place, and an assignment copies the
    reference, not the elements.  The heap is the list of all arrays; a
    reference is an index into it. *)
Abbreviation ref := nat.

(** Modelled from the spec: the type [OAuthServerConfig] is declared in
    [@backend/schemas/oauth-config], which is not among the sources.  The
    fields are those the provider reads; the design document lists them as
    scopes, redirect URI set, endpoints and an optional static client id and
    secret. *)
Record OAuthServerConfig := {
  name : string;
  server_url : string;
  client_id : option string;
  client_secret : option string;
  redirect_uris : list string;
  scopes : ref;
  default_scopes : ref;
  supports_resource_metadata : bool;
  well_known_url : option string
}.

Definition set_scopes (config : OAuthServerConfig) (r : ref) : OAuthServerConfig :=
  {| name := name config;
     server_url := server_url config;
     client_id := client_id config;
     client_secret := client_secret config;
     redirect_uris := redirect_uris config;
     scopes := r;
     default_scopes := default_scopes config;
     supports_resource_metadata := supports_resource_metadata config;
     well_known_url := well_known_url config |}.

Record OAuthClientInformation := {
  info_client_id : string;
  info_client_secret : option string
}.

(** What the discovery functions of the OAuth client library resolve to:
    a metadata document that may list [scopes_supported], or nothing. *)
Record Metadata := { scopes_supported : option (list string) }.

(** Modelled from the spec: a row of the persistence collaborator
    [@backend/models/mcpServer], which is not among the sources, as far as
    [clientInformation] reads it.  The design document lists
    [oauthClientInfo] among the fields a record may carry. *)
Record McpServer := { oauthClientInfo : option OAuthClientInformation }.

Inductive field_value :=
| VNull
| VClientInfo (info : OAuthClientInformation).

(** The collaborators of the provider: the discovery functions of
    [@modelcontextprotocol/sdk/client/auth.js] and the model
    [@backend/models/mcpServer].  Each call either resolves or rejects; a
    failure of the dynamic [import] of the model counts as a rejected call,
    since both sit in the same [try] block. *)
Record Env := {
  discoverOAuthProtectedResourceMetadata : string -> result (option Metadata);
  discoverAuthorizationServerMetadata : string -> result (option Metadata);
  McpServerModel_getById : string -> result (option (list McpServer));
  McpServerModel_update : string -> list (string * field_value) -> result nat
}.

Inductive level := Info | Warn | Err.

(** What a run leaves behind for an observer.  Log entries keep the message
    text (without its pictograph) and drop the other arguments. *)
Inductive event :=
| Log (lv : level) (msg : string)
| CallDiscoverResource (url : string)
| CallDiscoverAuthServer (url : string)
| CallGetById (serverId : string)
| CallUpdate (serverId : string) (fields : list (string * field_value)).

(** The process-wide state: the arrays, the module-level [codeVerifierStore]
    and the events so far, oldest first. *)
Record World := {
  heap : list (list string);
  codeVerifierStore : gmap string string;
  trace : list event
}.

Definition emit (e : event) : Eff World unit :=
  modify (fun w => {| heap := heap w;
                      codeVerifierStore := codeVerifierStore w;
                      trace := (trace w ++ [e])%list |}).

Definition log (lv : level) (msg : string) : Eff World unit := emit (Log lv msg).

Definition set_heap (h : list (list string)) (w : World) : World :=
  {| heap := h; codeVerifierStore := codeVerifierStore w; trace := trace w |}.

Definition set_store (m : gmap string string) (w : World) : World :=
  {| heap := heap w; codeVerifierStore := m; trace := trace w |}.

(** The elements of the array behind a reference. *)
Definition elements (h : list (list string)) (r : ref) : list string :=
  default [] (h !! r).

(** A new array. *)
Definition alloc (l : list string) : Eff World ref :=
  fun w => (Ok (length (heap w)), set_heap (heap w ++ [l])%list w).

Definition read (r : ref) : Eff World (list string) :=
  fun w => (Ok (elements (heap w) r), w).

(** [a.sort()]: sorts [a] in place and returns [a] itself. *)
Definition array_sort (r : ref) : Eff World ref :=
  fun w => (Ok r, set_heap (<[r := JS.sort (elements (heap w) r)]> (heap w)) w).

(** The object a discovery call resolves to holds a new array. *)
Definition received (md : option Metadata) : Eff World (option (option ref)) :=
  match md with
  | None => ret None
  | Some m =>
      match scopes_supported m with
      | None => ret (Some None)
      | Some l => r <- alloc l ;; ret (Some (Some r))
      end
  end.

Definition call_discoverOAuthProtectedResourceMetadata (env : Env) (url : string)
  : Eff World (option (option ref)) :=
  emit (CallDiscoverResource url) ;;;
  md <- await (discoverOAuthProtectedResourceMetadata env url) ;;
  received md.

Definition call_discoverAuthorizationServerMetadata (env : Env) (url : string)
  : Eff World (option (option ref)) :=
  emit (CallDiscoverAuthServer url) ;;;
  md <- await (discoverAuthorizationServerMetadata env url) ;;
  received md.

(** [metadata?.scopes_supported && metadata.scopes_supported.length > 0]:
    the array when the test holds. *)
Definition nonempty_scopes (md : option (option ref)) : Eff World (option ref) :=
  match md with
  | Some (Some r) =>
      l <- read r ;;
      if Nat.ltb 0 (length l) then ret (Some r) else ret None
  | _ => ret None
  end.

(** In the two functions below the value of an inner block is [Some r] when
    the source leaves the function there with [return r]. *)
Definition discoverScopes (env : Env) (config : OAuthServerConfig) : Eff World ref :=
  log Info "Discovering OAuth scopes for server:" ;;;
  try_catch
    (fromResource <-
       (if supports_resource_metadata config then
          try_catch
            (resourceMetadata <-
               call_discoverOAuthProtectedResourceMetadata env (server_url config) ;;
             found <- nonempty_scopes resourceMetadata ;;
             match found with
             | Some r => log Info "Found resource-specific scopes:" ;;; ret (Some r)
             | None => ret None
             end)
            (fun error => log Info "Resource metadata discovery failed:" ;;; ret None)
        else ret None) ;;
     match fromResource with
     | Some r => ret r
     | None =>
         fromAuthServer <-
           try_catch
             (let wellKnownUrl :=
                JS.or_else (well_known_url config)
                  (server_url config +:+ "/.well-known/oauth-authorization-server") in
              authServerMetadata <-
                call_discoverAuthorizationServerMetadata env wellKnownUrl ;;
              found <- nonempty_scopes authServerMetadata ;;
              match found with
              | Some r => log Info "Found authorization server scopes:" ;;; ret (Some r)
              | None => ret None
              end)
             (fun error =>
                log Info "Authorization server metadata discovery failed:" ;;; ret None) ;;
         match fromAuthServer with
         | Some r => ret r
         | None =>
             log Info "No scopes discovered, using configured default scopes" ;;;
             ret (default_scopes config)
         end
     end)
    (fun error =>
       log Info "Failed to discover scopes:" ;;;
       log Info "Using configured default scopes" ;;;
       ret (default_scopes config)).

(** The provider object.  [serverKey], a digest of the server URL that is
    only logged, is left out. *)
Record McpOAuthProvider := {
  config : OAuthServerConfig;
  serverId : string;
  authorizationCode : option string
}.

Definition with_scopes (this : McpOAuthProvider) (r : ref) : McpOAuthProvider :=
  {| config := set_scopes (config this) r;
     serverId := serverId this;
     authorizationCode := authorizationCode this |}.

(** [init] returns the provider as the method leaves it. *)
Definition init (env : Env) (this : McpOAuthProvider) : Eff World McpOAuthProvider :=
  log Info "Server:" ;;;
  log Info "Server Key:" ;;;
  log Info "Config:" ;;;
  log Info "Using configured scopes:" ;;;
  try_catch
    (discoveredScopes <- discoverScopes env (config this) ;;
     l <- read discoveredScopes ;;
     if Nat.ltb 0 (length l) then
       log Info "Discovered scopes:" ;;;
       a <- array_sort discoveredScopes ;;
       la <- read a ;;
       let left := JS.JSON_stringify la in
       b <- array_sort (scopes (config this)) ;;
       lb <- read b ;;
       let right := JS.JSON_stringify lb in
       if negb (String.eqb left right) then
         log Info "Updated to use discovered scopes" ;;;
         ret (with_scopes this discoveredScopes)
       else ret this
     else ret this)
    (fun error =>
       log Info "Scope discovery failed, using configured scopes:" ;;; ret this).

Definition call_getById (env : Env) (id : string)
  : Eff World (option (list McpServer)) :=
  emit (CallGetById id) ;;; await (McpServerModel_getById env id).

Definition call_update (env : Env) (id : string) (fields : list (string * field_value))
  : Eff World nat :=
  emit (CallUpdate id fields) ;;; await (McpServerModel_update env id fields).

(** [...(secret && { client_secret: secret })] *)
Definition secret_if_truthy (secret : option string) : option string :=
  if JS.truthy_opt secret then secret else None.

(** [server?.[0]?.oauthClientInfo] *)
Definition first_client_info (server : option (list McpServer))
  : option OAuthClientInformation :=
  match server with
  | Some (row :: _) => oauthClientInfo row
  | _ => None
  end.

(** [this.config.client_id && this.config.client_id !== ''], with the
    identifier when the test holds. *)
Definition static_client_id (config : OAuthServerConfig) : option string :=
  match client_id config with
  | Some id => if JS.truthy id && negb (String.eqb id "") then Some id else None
  | None => None
  end.

Definition clientInformation (env : Env) (this : McpOAuthProvider)
  : Eff World (option OAuthClientInformation) :=
  match static_client_id (config this) with
  | Some id =>
      log Info "Using static client registration from config" ;;;
      ret (Some {| info_client_id := id;
                   info_client_secret := secret_if_truthy (client_secret (config this)) |})
  | None =>
      cached <-
        try_catch
          (log Info "Looking for cached client info for server ID:" ;;;
           server <- call_getById env (serverId this) ;;
           log Info "Database query result:" ;;;
           match first_client_info server with
           | Some stored =>
               log Info "Using cached dynamic client registration from database" ;;;
               let clientInfo :=
                 {| info_client_id := info_client_id stored;
                    info_client_secret := secret_if_truthy (info_client_secret stored) |} in
               log Info "Loaded client info:" ;;;
               ret (Some clientInfo)
           | None => ret None
           end)
          (fun error => log Warn "Failed to load client info from database:" ;;; ret None) ;;
      match cached with
      | Some clientInfo => ret (Some clientInfo)
      | None =>
          log Info "Will use dynamic client registration (no cached client found)" ;;;
          ret None
      end
  end.

(** *** The callback listener of [startCallbackServer]

    The promise the method returns, the HTTP server it creates and the
    responses the server has written.  Response bodies keep their heading. *)
Inductive promise_state :=
| Pending
| Fulfilled (code : string)
| Rejected (reason : Error).

Record Response := { status : nat; body : string }.

Record Listener := {
  promise : promise_state;
  listening : bool;
  responses : list Response
}.

(** [resolve] and [reject] of a promise settle it when it is pending and do
    nothing afterwards. *)
Definition resolve (code : string) (st : Listener) : Listener :=
  match promise st with
  | Pending => {| promise := Fulfilled code;
                  listening := listening st; responses := responses st |}
  | _ => st
  end.

Definition reject (reason : Error) (st : Listener) : Listener :=
  match promise st with
  | Pending => {| promise := Rejected reason;
                  listening := listening st; responses := responses st |}
  | _ => st
  end.

(** [server.close()]: no new connection is accepted; requests on connections
    that are already open still reach the handler, which never consults
    [listening]. *)
Definition server_close (st : Listener) : Listener :=
  {| promise := promise st; listening := false; responses := responses st |}.

(** [res.writeHead(status, ...); res.end(body)] *)
Definition respond (status : nat) (body : string) (st : Listener) : Listener :=
  {| promise := promise st;
     listening := listening st;
     responses := (responses st ++ [ {| status := status; body := body |} ])%list |}.

(** [req.url?.includes('code=') || req.url?.startsWith('/oauth/callback')] *)
Definition is_callback (req_url : option string) : bool :=
  match req_url with
  | Some u => JS.includes u "code=" || JS.startsWith u "/oauth/callback"
  | None => false
  end.

Definition waiting_body : string :=
  "<html><body><h1>OAuth Callback Server</h1><p>Waiting for authorization...</p></body></html>".

(** The request handler given to [http.createServer]. *)
Definition on_request `{Parser} (req_url : option string) (st : Listener) : Listener :=
  if is_callback req_url then
    match URL_new (default "" req_url) (Some "http://localhost:8080") with
    | Some url =>
        let code := searchParams_get (searchParams url) "code" in
        let error := searchParams_get (searchParams url) "error" in
        if JS.truthy_opt error then
          reject (mkError ("OAuth error: " +:+ default "" error))
            (server_close
               (respond 400 "<html><body><h1>OAuth Error</h1></body></html>" st))
        else if negb (JS.truthy_opt code) then
          reject (mkError "No authorization code received")
            (server_close
               (respond 400 "<html><body><h1>No Authorization Code</h1></body></html>" st))
        else
          resolve (default "" code)
            (server_close
               (respond 200 "<html><body><h1>Authorization Successful!</h1></body></html>" st))
    | None =>
        reject (mkError "Invalid URL")
          (server_close
             (respond 500 "<html><body><h1>Server Error</h1></body></html>" st))
    end
  else respond 404 waiting_body st.

(** [server.on('error', ...)] *)
Definition on_error (error : Error) (st : Listener) : Listener := reject error st.

(** The callback of [setTimeout]. *)
Definition on_timeout (st : Listener) : Listener :=
  reject (mkError "Authorization timeout - no callback received within 5 minutes")
    (server_close st).

(** The delay given to [setTimeout], in milliseconds. *)
Definition TIMEOUT_MS : N := 5 * 60 * 1000.

(** The listener when [startCallbackServer] returns its promise. *)
Definition startCallbackServer : Listener :=
  {| promise := Pending; listening := true; responses := [] |}.

(** What reaches the server. *)
Inductive arrival :=
| Request (req_url : option string)
| ServerError (error : Error).

Definition deliver `{Parser} (a : arrival) (st : Listener) : Listener :=
  match a with
  | Request req_url => on_request req_url st
  | ServerError error => on_error error st
  end.

(** The event loop runs the callbacks one after the other.  Each arrival
    carries its time in milliseconds since the listener started; the timer
    fires once, before the first arrival that is not earlier than its
    delay, or after the last arrival. *)
Fixpoint event_loop `{Parser} (timer_pending : bool) (arrivals : list (N * arrival))
  (st : Listener) : Listener :=
  match arrivals with
  | [] => if timer_pending then on_timeout st else st
  | (t, a) :: rest =>
      let fires := timer_pending && N.leb TIMEOUT_MS t in
      let st1 := if fires then on_timeout st else st in
      event_loop (timer_pending && negb fires) rest (deliver a st1)
  end.

(** *** The PKCE verifier store *)

Definition saveCodeVerifier (this : McpOAuthProvider) (codeVerifier : string)
  : Eff World unit :=
  modify (fun w => set_store (<[serverId this := codeVerifier]> (codeVerifierStore w)) w).

Definition missing_verifier : Error := mkError "No code verifier found for server".

Definition codeVerifier (this : McpOAuthProvider) : Eff World string :=
  w <- get ;;
  let verifier := codeVerifierStore w !! serverId this in
  if negb (JS.truthy_opt verifier) then throw missing_verifier
  else ret (default "" verifier).

Definition cleared_fields : list (string * field_value) :=
  [("oauthTokens", VNull); ("oauthClientInfo", VNull);
   ("oauthServerMetadata", VNull); ("oauthResourceMetadata", VNull)].

Definition clear (env : Env) (this : McpOAuthProvider) : Eff World unit :=
  modify (fun w => set_store (delete (serverId this) (codeVerifierStore w)) w) ;;;
  try_catch
    (_ <- call_update env (serverId this) cleared_fields ;;
     log Info "Cleared all OAuth data from database and memory")
    (fun error => log Err "Failed to clear OAuth data from database:").

(** *** The other methods of the provider *)

(** [get redirectUrl] *)
Definition redirectUrl : string := "http://localhost:8080/oauth/callback".

(** The client metadata handed to the OAuth client library. *)
Module ClientMetadata.
Record t := {
  client_name : string;
  redirect_uris : list string;
  grant_types : list string;
  response_types : list string;
  token_endpoint_auth_method : string;
  scope : string
}.
End ClientMetadata.

(** [get clientMetadata]; it reads the array of scopes. *)
Definition clientMetadata (this : McpOAuthProvider) : Eff World ClientMetadata.t :=
  l <- read (scopes (config this)) ;;
  ret {| ClientMetadata.client_name := name (config this);
         ClientMetadata.redirect_uris := redirect_uris (config this);
         ClientMetadata.grant_types := ["authorization_code"; "refresh_token"];
         ClientMetadata.response_types := ["code"];
         ClientMetadata.token_endpoint_auth_method :=
           if JS.truthy_opt (client_secret (config this))
           then "client_secret_post" else "none";
         ClientMetadata.scope := JS.join l " " |}.

Definition saveClientInformation (env : Env) (this : McpOAuthProvider)
  (clientInfo : OAuthClientInformation) : Eff World unit :=
  try_catch
    (log Info "Saving client registration to database for server:" ;;;
     log Info "Client info to save:" ;;;
     result <- call_update env (serverId this)
                 [("oauthClientInfo", VClientInfo clientInfo)] ;;
     log Info "Client registered and saved to database:")
    (fun error =>
       log Err "Failed to save client information to database:" ;;; throw error).

(** The token record that [tokens] returns, and the [oauthTokens] column of
    a stored row, whose [token_type] may be missing.  [expires_in] is a
    number of seconds. *)
Record OAuthTokens := {
  access_token : string;
  token_type : string;
  refresh_token : option string;
  expires_in : option N;
  scope : option string
}.

Record StoredTokens := {
  stored_access_token : string;
  stored_token_type : option string;
  stored_refresh_token : option string;
  stored_expires_in : option N;
  stored_scope : option string
}.

(** [!!n] for a value that is a number or [undefined]. *)
Definition truthy_number (n : option N) : bool :=
  match n with
  | Some k => negb (N.eqb k 0)
  | None => false
  end.

(** [server?.[0]?.oauthTokens], on the [oauthTokens] column of the rows. *)
Definition first_tokens (server : option (list (option StoredTokens)))
  : option StoredTokens :=
  match server with
  | Some (row :: _) => row
  | _ => None
  end.

(** [tokens]; [getById] gives the [oauthTokens] column of the rows that
    [McpServerModel.getById] resolves to. *)
Definition tokens (getById : string -> result (option (list (option StoredTokens))))
  (this : McpOAuthProvider) : Eff World (option OAuthTokens) :=
  try_catch
    (server <- (emit (CallGetById (serverId this)) ;;;
                await (getById (serverId this))) ;;
     match first_tokens server with
     | Some stored =>
         log Info "Using cached tokens from database" ;;;
         ret (Some {| access_token := stored_access_token stored;
                      token_type := JS.or_else (stored_token_type stored) "Bearer";
                      refresh_token := secret_if_truthy (stored_refresh_token stored);
                      expires_in := if truthy_number (stored_expires_in stored)
                                    then stored_expires_in stored else None;
                      scope := secret_if_truthy (stored_scope stored) |})
     | None => ret None
     end)
    (fun error => log Warn "Failed to load tokens from database:" ;;; ret None).

(** [process.platform] *)
Inductive platform :=
| darwin
| win32
| other (name : string).

Record SpawnOptions := { detached : bool; stdio : string; shell : bool }.

(** What [redirectToAuthorization] does besides waiting. *)
Inductive launch :=
| LaunchLog (msg : string)
| StartCallbackServer
| Spawn (command : string) (args : list string) (options : SpawnOptions).

Definition open_browser (process_platform : platform) (url : string) : launch :=
  match process_platform with
  | darwin =>
      Spawn "open" [url] {| detached := true; stdio := "ignore"; shell := false |}
  | win32 =>
      Spawn "start" [url] {| detached := true; stdio := "ignore"; shell := true |}
  | other _ =>
      Spawn "xdg-open" [url] {| detached := true; stdio := "ignore"; shell := false |}
  end.

Definition with_authorizationCode (this : McpOAuthProvider) (code : string)
  : McpOAuthProvider :=
  {| config := config this;
     serverId := serverId this;
     authorizationCode := Some code |}.

(** [redirectToAuthorization].  [spawned] is the outcome of the call of
    [spawn]; [arrivals] is what reaches the callback server while the method
    awaits its promise.  The result is the list of what the method did, and
    the provider it leaves or the error it throws; [None] stands for a
    promise that is never settled. *)
Definition redirectToAuthorization `{Parser} (process_platform : platform)
  (spawned : result unit) (arrivals : list (N * arrival))
  (this : McpOAuthProvider) (authUrl : string)
  : list launch * option (result McpOAuthProvider) :=
  let started :=
    [LaunchLog "Opening browser for authorization...";
     LaunchLog "Auth URL:";
     LaunchLog "Starting callback server...";
     StartCallbackServer;
     open_browser process_platform authUrl] in
  match spawned with
  | Throw error => (started, Some (Throw error))
  | Ok _ =>
      let waiting :=
        (started ++ [LaunchLog "Browser opened - please complete authorization";
                     LaunchLog "Waiting for callback..."])%list in
      match promise (event_loop true arrivals startCallbackServer) with
      | Fulfilled code =>
          ((waiting ++ [LaunchLog "Authorization code captured"])%list,
           Some (Ok (with_authorizationCode this code)))
      | Rejected reason => (waiting, Some (Throw reason))
      | Pending => (waiting, None)
      end
  end.

End Provider.

(** * Vocabulary of the specification

    Notions that the design document uses in its statements, written from
    its words.  The theorems relate them to the embedding above. *)

Module Spec.

(** The navigation guard's allow-list: exact hosts, and suffixes that need a
    non-empty prefix. *)
Definition allowed_exact (host : string) : Prop :=
  host = "supabase.com" \/ host = "app.supabase.com" \/ host = "supabase.io".

Definition allowed_suffix (host : string) : Prop :=
  exists p, p <> "" /\ (host = p +:+ ".supabase.com" \/ host = p +:+ ".supabase.io").

(** A project reference: only characters of [[a-zA-Z0-9-_]], that is
    letters, digits, the hyphen (code 45) and the underscore (code 95). *)
Definition ref_char (c : ascii) : Prop :=
  let n := nat_of_ascii c in
  (nat_of_ascii "a" <= n <= nat_of_ascii "z") \/
  (nat_of_ascii "A" <= n <= nat_of_ascii "Z") \/
  (nat_of_ascii "0" <= n <= nat_of_ascii "9") \/
  n = 45 \/ n = 95.

Definition is_project_ref (s : string) : Prop :=
  Forall ref_char (list_ascii_of_string s).

(** What the page reports to the extraction engine: whether the injected
    verification script reports success, and the token the storage probe
    yields, if any.  A script that fails to evaluate reports nothing. *)
Definition verification (wc : Browser.WebContents) : Effect.result Value.jsval :=
  Browser.executeJavaScript wc
    (Extractor.buildSupabaseTokenExtractionScript
       (Extractor.extractProjectRefFromUrl (Browser.getURL wc))).

Definition reports_success (wc : Browser.WebContents) : bool :=
  match verification wc with
  | Effect.Ok result =>
      match Value.get_prop result "success" with
      | Effect.Ok success => Value.truthy success
      | Effect.Throw _ => false
      end
  | Effect.Throw _ => false
  end.

Definition reported_token (wc : Browser.WebContents) : option Value.jsval :=
  match Browser.executeJavaScript wc Browser.tokenScript with
  | Effect.Ok token => if Value.truthy token then Some token else None
  | Effect.Throw _ => None
  end.

Definition credential (wc : Browser.WebContents) (token : Value.jsval)
  : Browser.Credential :=
  {| Browser.primary_token := token;
     Browser.project_ref := Extractor.extractProjectRefFromUrl (Browser.getURL wc);
     Browser.extracted_from := Browser.getURL wc |}.

(** The client identity resolver.  A static identity exists when a
    non-empty client id is configured; a secret belongs to an identity when
    it is not empty.  A cached registration is what the persistence
    collaborator hands out for the target; a read that fails hands out
    nothing. *)
Definition identity (id : string) (secret : option string)
  : Provider.OAuthClientInformation :=
  {| Provider.info_client_id := id;
     Provider.info_client_secret :=
       match secret with
       | Some s => if decide (s = "") then None else Some s
       | None => None
       end |}.

Definition static_identity (config : Provider.OAuthServerConfig)
  : option Provider.OAuthClientInformation :=
  match Provider.client_id config with
  | Some id =>
      if decide (id = "") then None
      else Some (identity id (Provider.client_secret config))
  | None => None
  end.

Definition cached_registration (env : Provider.Env) (serverId : string)
  : option Provider.OAuthClientInformation :=
  match Provider.McpServerModel_getById env serverId with
  | Effect.Ok (Some (row :: _)) =>
      match Provider.oauthClientInfo row with
      | Some stored =>
          Some (identity (Provider.info_client_id stored)
                         (Provider.info_client_secret stored))
      | None => None
      end
  | _ => None
  end.

(** Whether a run consulted the persistence collaborator for a client
    registration. *)
Definition consults_store (events : list Provider.event) : Prop :=
  exists serverId, In (Provider.CallGetById serverId) events.

(** Scope discovery.  A discovery step yields the scopes its document lists;
    a step that fails, or whose document lists none, yields no result. *)
Definition advertised (r : Effect.result (option Provider.Metadata)) : list string :=
  match r with
  | Effect.Ok (Some md) => default [] (Provider.scopes_supported md)
  | _ => []
  end.

Definition resource_scopes (env : Provider.Env) (config : Provider.OAuthServerConfig)
  : list string :=
  if Provider.supports_resource_metadata config
  then advertised
         (Provider.discoverOAuthProtectedResourceMetadata env (Provider.server_url config))
  else [].

Definition well_known (config : Provider.OAuthServerConfig) : string :=
  match Provider.well_known_url config with
  | Some url =>
      if decide (url = "")
      then Provider.server_url config +:+ "/.well-known/oauth-authorization-server"
      else url
  | None => Provider.server_url config +:+ "/.well-known/oauth-authorization-server"
  end.

Definition auth_server_scopes (env : Provider.Env) (config : Provider.OAuthServerConfig)
  : list string :=
  advertised (Provider.discoverAuthorizationServerMetadata env (well_known config)).

(** The first non-empty candidate wins; the fallback is last. *)
Fixpoint first_nonempty (candidates : list (list string)) (fallback : list string)
  : list string :=
  match candidates with
  | [] => fallback
  | [] :: rest => first_nonempty rest fallback
  | found :: _ => found
  end.

Definition resolved_scopes (env : Provider.Env) (config : Provider.OAuthServerConfig)
  (defaults : list string) : list string :=
  first_nonempty [resource_scopes env config; auth_server_scopes env config] defaults.

(** The calls made on the verifier store, oldest first, and the verifier
    that the most recent [saveCodeVerifier] for a target left, unless a
    [clear] for that target came after it. *)
Inductive call :=
| SaveCodeVerifier (this : Provider.McpOAuthProvider) (codeVerifier : string)
| Clear (this : Provider.McpOAuthProvider).

Definition after_call (serverId : string) (saved : option string) (c : call)
  : option string :=
  match c with
  | SaveCodeVerifier this v =>
      if decide (Provider.serverId this = serverId) then Some v else saved
  | Clear this =>
      if decide (Provider.serverId this = serverId) then None else saved
  end.

Definition last_saved (serverId : string) (calls : list call) : option string :=
  foldl (after_call serverId) None calls.

(** The process when the module is loaded: no verifier, no array, no
    event. *)
Definition initial_world : Provider.World :=
  {| Provider.heap := []; Provider.codeVerifierStore := ∅; Provider.trace := [] |}.

Definition perform (env : Provider.Env) (c : call) : Effect.Eff Provider.World unit :=
  match c with
  | SaveCodeVerifier this v => Provider.saveCodeVerifier this v
  | Clear this => Provider.clear env this
  end.

Fixpoint perform_all (env : Provider.Env) (calls : list call)
  : Effect.Eff Provider.World unit :=
  match calls with
  | [] => Effect.ret tt
  | c :: rest => Effect.bind (perform env c) (fun _ => perform_all env rest)
  end.

(** The callback listener: the response that closes a step, the errors that
    name the ways a flow fails, and the neutral response. *)
Definition answered (before after : Provider.Listener) (status : nat) : Prop :=
  exists body,
    Provider.responses after =
    (Provider.responses before ++ [ {| Provider.status := status; Provider.body := body |} ])%list.

Definition authorization_denied (error : string) : Effect.Error :=
  Effect.mkError ("OAuth error: " +:+ error).

Definition no_code : Effect.Error := Effect.mkError "No authorization code received".

Definition timed_out : Effect.Error :=
  Effect.mkError "Authorization timeout - no callback received within 5 minutes".

Definition waiting : Provider.Response :=
  {| Provider.status := 404; Provider.body := Provider.waiting_body |}.

Definition callback_base : option string := Some "http://localhost:8080".

(** A query parameter is present when it has a non-empty value. *)
Definition present (v : option string) : Prop := exists s, v = Some s /\ s <> "".

(** No discovery endpoint can be reached: every discovery call fails. *)
Definition unreachable (env : Provider.Env) : Prop :=
  (forall url, exists e,
     Provider.discoverOAuthProtectedResourceMetadata env url = Effect.Throw e) /\
  (forall url, exists e,
     Provider.discoverAuthorizationServerMetadata env url = Effect.Throw e).

(** The text that precedes a project reference in a dashboard URL, and what
    may follow a reference: nothing, or a character that is not a reference
    character. *)
Definition project_prefix : string := "supabase.com/dashboard/project/".

Definition ref_ends (rest : string) : Prop :=
  match rest with
  | EmptyString => True
  | String c _ => ~ ref_char c
  end.

(** The script that verifies the page. *)
Definition verification_script (wc : Browser.WebContents) : string :=
  Extractor.buildSupabaseTokenExtractionScript
    (Extractor.extractProjectRefFromUrl (Browser.getURL wc)).

(** An arrival that settles a pending flow: a callback request or a server
    error.  The number of requests among the arrivals. *)
Definition settles (a : Provider.arrival) : bool :=
  match a with
  | Provider.Request req => Provider.is_callback req
  | Provider.ServerError _ => true
  end.

Fixpoint requests (arrivals : list (N * Provider.arrival)) : nat :=
  match arrivals with
  | [] => 0
  | (_, Provider.Request _) :: rest => S (requests rest)
  | (_, Provider.ServerError _) :: rest => requests rest
  end.

(** The calls that a run makes on its collaborators are the events that are
    not log entries.  The discovery calls that the priority chain needs: the
    resource metadata when support is advertised, and the authorization
    server metadata when that gave no scopes. *)
Definition is_call (e : Provider.event) : bool :=
  match e with
  | Provider.Log _ _ => false
  | _ => true
  end.

Definition discovery_calls (env : Provider.Env) (config : Provider.OAuthServerConfig)
  : list Provider.event :=
  ((if Provider.supports_resource_metadata config
    then [Provider.CallDiscoverResource (Provider.server_url config)] else []) ++
   match resource_scopes env config with
   | [] => [Provider.CallDiscoverAuthServer (well_known config)]
   | _ :: _ => []
   end)%list.

(** The [oauthTokens] column of the first row that a lookup hands out; a
    lookup that fails hands out nothing. *)
Definition stored_tokens {A : Type}
  (r : Effect.result (option (list (option A)))) : option A :=
  match r with
  | Effect.Ok (Some (row :: _)) => row
  | _ => None
  end.

End Spec.

(** * Sample inputs

    Concrete collaborators and configurations, used to run the embedding. *)

Module Example.
Import Effect Provider.

(** A page at [url] whose verification script and storage probe have the
    given outcomes. *)
Definition page (url : string) (verification token : result Value.jsval)
  : Browser.WebContents :=
  {| Browser.getURL := url;
     Browser.executeJavaScript := fun script =>
       if String.eqb script Browser.tokenScript then token else verification |}.

Definition success_report : Value.jsval :=
  Value.JObject [("success", Value.JBool true)].

Definition failure_report : Value.jsval :=
  Value.JObject [("success", Value.JBool false);
                 ("error", Value.JString "Not on Supabase domain")].

Definition registered : OAuthClientInformation :=
  {| info_client_id := "dyn-41"; info_client_secret := Some "s3cret" |}.

(** No endpoint answers and the database is down. *)
Definition offline : Env :=
  {| discoverOAuthProtectedResourceMetadata := fun _ => Throw (mkError "fetch failed");
     discoverAuthorizationServerMetadata := fun _ => Throw (mkError "fetch failed");
     McpServerModel_getById := fun _ => Throw (mkError "database is locked");
     McpServerModel_update := fun _ _ => Throw (mkError "database is locked") |}.

(** The authorization server lists two scopes, the resource none; the
    database holds a dynamic registration. *)
Definition online : Env :=
  {| discoverOAuthProtectedResourceMetadata := fun _ =>
       Ok (Some {| scopes_supported := Some [] |});
     discoverAuthorizationServerMetadata := fun _ =>
       Ok (Some {| scopes_supported := Some ["profile"; "email"] |});
     McpServerModel_getById := fun _ => Ok (Some [ {| oauthClientInfo := Some registered |} ]);
     McpServerModel_update := fun _ _ => Ok 1 |}.

Definition server_config (id : option string) (scopes default_scopes : ref)
  : OAuthServerConfig :=
  {| name := "Example";
     server_url := "https://mcp.example.com";
     client_id := id;
     client_secret := Some "";
     redirect_uris := ["http://localhost:8080/oauth/callback"];
     scopes := scopes;
     default_scopes := default_scopes;
     supports_resource_metadata := true;
     well_known_url := None |}.

Definition provider (id : option string) (scopes default_scopes : ref)
  : McpOAuthProvider :=
  {| config := server_config id scopes default_scopes;
     serverId := "srv-1";
     authorizationCode := None |}.

(** A process whose arrays are the given ones. *)
Definition world (arrays : list (list string)) : World :=
  {| heap := arrays; codeVerifierStore := ∅; trace := [] |}.

(** The listener after a first callback request that carried a code. *)
Definition settled : Listener :=
  @on_request Url.reference (Some "/oauth/callback?code=abc123") startCallbackServer.

(** The provider of the examples on the verifier store. *)
Definition session : McpOAuthProvider := provider None 0 0.

(** A stored token record without a token type, and a lookup that finds
    it. *)
Definition stored : StoredTokens :=
  {| stored_access_token := "at-1";
     stored_token_type := None;
     stored_refresh_token := Some "";
     stored_expires_in := Some 3600%N;
     stored_scope := Some "read write" |}.

Definition lookup_tokens (serverId : string)
  : result (option (list (option StoredTokens))) :=
  Ok (Some [Some stored]).

(** A first callback with a code, between a stray request and a second
    callback. *)
Definition visit : list (N * arrival) :=
  [(100%N, Request (Some "/favicon.ico"));
   (2000%N, Request (Some "/oauth/callback?code=abc123"));
   (2500%N, Request (Some "/oauth/callback?code=zzz"))].

End Example.

(** * Properties of the platform functions *)

Section StringFacts.

Lemma append_cons (c : ascii) (s t : string) :
  String c s +:+ t = String c (s +:+ t).
Proof. reflexivity. Qed.

Lemma append_empty_r (s : string) : s +:+ "" = s.
Proof. induction s as [|c s IH]; [reflexivity|]. rewrite append_cons. by f_equal. Qed.

Lemma append_assoc (a b c : string) : (a +:+ b) +:+ c = a +:+ (b +:+ c).
Proof.
  induction a as [|x a IH]; [reflexivity|].
  rewrite !append_cons. by f_equal.
Qed.

Lemma length_append (a b : string) :
  String.length (a +:+ b) = String.length a + String.length b.
Proof.
  induction a as [|x a IH]; [reflexivity|].
  rewrite append_cons. simpl. by rewrite IH.
Qed.

Lemma substring_skip (p t : string) (n : nat) :
  substring (String.length p) n (p +:+ t) = substring 0 n t.
Proof. induction p as [|c p IH]; [reflexivity|]. rewrite append_cons. exact IH. Qed.

Lemma substring_all (t : string) : substring 0 (String.length t) t = t.
Proof. induction t as [|c t IH]; [reflexivity|]. simpl. by rewrite IH. Qed.

Lemma substring_split (s : string) (n : nat) :
  n <= String.length s ->
  s = substring 0 n s +:+ substring n (String.length s - n) s.
Proof.
  revert n. induction s as [|c s IH]; intros n Hn.
  - simpl in Hn. assert (n = 0) as -> by lia. reflexivity.
  - destruct n as [|n].
    + simpl. by rewrite substring_all.
    + simpl in Hn. simpl substring. rewrite append_cons. f_equal.
      apply IH. lia.
Qed.

(** [endsWith] holds exactly of the strings that are a prefix followed by
    the searched string. *)
Lemma endsWith_spec (s suffix : string) :
  JS.endsWith s suffix = true <-> exists p, s = p +:+ suffix.
Proof.
  unfold JS.endsWith. split.
  - destruct (Nat.ltb_spec (String.length s) (String.length suffix)) as [|Hle];
      [discriminate|].
    intros H. apply String.eqb_eq in H.
    exists (substring 0 (String.length s - String.length suffix) s).
    pose proof (substring_split s (String.length s - String.length suffix)) as Hs.
    replace (String.length s - (String.length s - String.length suffix))
      with (String.length suffix) in Hs by lia.
    rewrite H in Hs. apply Hs. lia.
  - intros [p ->]. rewrite length_append.
    destruct (Nat.ltb_spec (String.length p + String.length suffix)
                (String.length suffix)) as [|_]; [lia|].
    replace (String.length p + String.length suffix - String.length suffix)
      with (String.length p) by lia.
    rewrite substring_skip, substring_all. apply String.eqb_refl.
Qed.

Lemma prefix_spec (p s : string) :
  String.prefix p s = true <-> exists t, s = p +:+ t.
Proof.
  revert s. induction p as [|c p IH]; intros s.
  - split; [intros _; by exists s|intros _; by destruct s].
  - destruct s as [|d s]; simpl.
    + split; [discriminate|intros [t Ht]; discriminate].
    + destruct (ascii_dec c d) as [->|Hne].
      * rewrite IH. split; intros [t Ht]; exists t.
        -- rewrite append_cons. by f_equal.
        -- rewrite append_cons in Ht. congruence.
      * split; [discriminate|].
        intros [t Ht]. rewrite append_cons in Ht. congruence.
Qed.

Lemma startsWith_spec (s p : string) :
  JS.startsWith s p = true <-> exists t, s = p +:+ t.
Proof. apply prefix_spec. Qed.

Lemma includes_nil (needle : string) :
  JS.includes "" needle = String.prefix needle "" || false.
Proof. reflexivity. Qed.

Lemma includes_cons (c : ascii) (s needle : string) :
  JS.includes (String c s) needle =
  String.prefix needle (String c s) || JS.includes s needle.
Proof. reflexivity. Qed.

Lemma includes_spec (s needle : string) :
  JS.includes s needle = true <-> exists a b, s = a +:+ needle +:+ b.
Proof.
  induction s as [|c s IH].
  - rewrite includes_nil, orb_false_r, prefix_spec. split.
    + intros [t Ht]. by exists "", t.
    + intros [a [b H]]. destruct a; [by exists b|discriminate].
  - rewrite includes_cons, orb_true_iff, prefix_spec, IH. split.
    + intros [[t Ht]|[a [b H]]].
      * by exists "", t.
      * exists (String c a), b. rewrite append_cons. by f_equal.
    + intros [a [b H]]. destruct a as [|d a].
      * left. by exists b.
      * right. rewrite append_cons in H. exists a, b. congruence.
Qed.

End StringFacts.

(** * Sorting and serializing arrays of strings *)

Section ArrayFacts.

Lemma read_quoted_char (c : ascii) (t : string) :
  JS.read_quoted (JS.quote_char c +:+ t) = JS.cons_fst c (JS.read_quoted t).
Proof. destruct c as [[] [] [] [] [] [] [] []]; reflexivity. Qed.

Lemma read_quoted_body (s rest : string) :
  JS.read_quoted (JS.quote_body s +:+ String JS.dquote rest) = Some (s, rest).
Proof.
  induction s as [|c s IH].
  - reflexivity.
  - change (JS.quote_body (String c s)) with (JS.quote_char c +:+ JS.quote_body s).
    rewrite append_assoc, read_quoted_char, IH. reflexivity.
Qed.

Lemma QuoteJSONString_append (s rest : string) :
  JS.QuoteJSONString s +:+ rest =
  String JS.dquote (JS.quote_body s +:+ String JS.dquote rest).
Proof.
  unfold JS.QuoteJSONString. rewrite append_cons, append_assoc. reflexivity.
Qed.

(** A quoted string ends where its closing quote is: two texts that start
    with quoted strings agree only if the strings and the rests agree. *)
Lemma QuoteJSONString_inj (a b r1 r2 : string) :
  JS.QuoteJSONString a +:+ r1 = JS.QuoteJSONString b +:+ r2 -> a = b /\ r1 = r2.
Proof.
  rewrite !QuoteJSONString_append. intros [= H].
  apply (f_equal JS.read_quoted) in H. rewrite !read_quoted_body in H.
  by injection H.
Qed.

Lemma stringify_elements_cons2 (x y : string) (l : list string) :
  JS.stringify_elements (x :: y :: l) =
  JS.QuoteJSONString x +:+ "," +:+ JS.stringify_elements (y :: l).
Proof. reflexivity. Qed.

Lemma stringify_elements_inj (l1 l2 : list string) :
  JS.stringify_elements l1 = JS.stringify_elements l2 -> l1 = l2.
Proof.
  revert l2. induction l1 as [|x [|x' l1] IH]; intros [|y [|y' l2]] H;
    try reflexivity.
  - simpl in H. rewrite QuoteJSONString_append in H. discriminate.
  - rewrite stringify_elements_cons2, QuoteJSONString_append in H. discriminate.
  - simpl in H. rewrite QuoteJSONString_append in H. discriminate.
  - simpl in H. by apply QuoteJSONString_inj in H as [-> _].
  - rewrite stringify_elements_cons2 in H. simpl in H.
    apply QuoteJSONString_inj in H as [_ H]. discriminate.
  - rewrite stringify_elements_cons2, QuoteJSONString_append in H. discriminate.
  - rewrite stringify_elements_cons2 in H. simpl in H.
    apply QuoteJSONString_inj in H as [_ H]. discriminate.
  - rewrite !stringify_elements_cons2 in H.
    apply QuoteJSONString_inj in H as [-> H].
    injection H as H. f_equal. by apply IH.
Qed.

(** [JSON.stringify] tells any two arrays of strings apart. *)
Lemma JSON_stringify_inj (l1 l2 : list string) :
  JS.JSON_stringify l1 = JS.JSON_stringify l2 <-> l1 = l2.
Proof.
  split; [|by intros ->]. unfold JS.JSON_stringify. intros [= H].
  by apply stringify_elements_inj.
Qed.

Lemma sort_insert_perm (x : string) (l : list string) :
  JS.sort_insert x l ≡ₚ x :: l.
Proof.
  induction l as [|y l IH]; simpl; [reflexivity|].
  destruct (String.leb x y); [reflexivity|].
  rewrite IH. apply Permutation_swap.
Qed.

Lemma sort_perm (l : list string) : JS.sort l ≡ₚ l.
Proof.
  induction l as [|x l IH]; simpl; [reflexivity|].
  by rewrite sort_insert_perm, IH.
Qed.

Lemma sort_insert_sorted (x : string) (l : list string) :
  Sorted String.le l -> Sorted String.le (JS.sort_insert x l).
Proof.
  induction 1 as [|y l Hl IH Hhd]; simpl.
  - repeat constructor.
  - destruct (String.leb x y) eqn:Hxy.
    + constructor; [by constructor|]. constructor. unfold String.le. by rewrite Hxy.
    + constructor; [exact IH|].
      assert (Hyx : String.le y x).
      { unfold String.le. destruct (String.leb_total x y) as [H|H]; [congruence|].
        by rewrite H. }
      destruct Hhd as [|z l' Hyz]; simpl; [by constructor|].
      destruct (String.leb x z); by constructor.
Qed.

Lemma sort_sorted (l : list string) : Sorted String.le (JS.sort l).
Proof.
  induction l as [|x l IH]; simpl; [constructor|]. by apply sort_insert_sorted.
Qed.

(** Sorting decides equality up to order. *)
Lemma sort_eq_iff (l1 l2 : list string) : JS.sort l1 = JS.sort l2 <-> l1 ≡ₚ l2.
Proof.
  split.
  - intros H. by rewrite <- (sort_perm l1), H, sort_perm.
  - intros H. apply (Sorted_unique String.le); try apply sort_sorted.
    by rewrite !sort_perm.
Qed.

Lemma sort_idempotent (l : list string) : JS.sort (JS.sort l) = JS.sort l.
Proof. apply sort_eq_iff, sort_perm. Qed.

End ArrayFacts.

(** * The Supabase URL helpers *)

Section ExtractorFacts.
Import Url Extractor.

Lemma take_while_all (p : ascii -> bool) (s : string) :
  Forall (fun c => p c = true) (list_ascii_of_string s) -> take_while p s = s.
Proof.
  induction s as [|c s IH]; simpl; [reflexivity|].
  intros H. inversion H as [|? ? Hc Hs]; subst.
  rewrite Hc. f_equal. by apply IH.
Qed.

Lemma strip_prefix_append (p s : string) : strip_prefix p (p +:+ s) = Some s.
Proof.
  induction p as [|c p IH]; [reflexivity|].
  rewrite append_cons. simpl. by rewrite Ascii.eqb_refl.
Qed.

(** The class of the pattern holds the characters the specification
    lists. *)
Lemma is_ref_char_spec (c : ascii) : is_ref_char c = true <-> Spec.ref_char c.
Proof.
  unfold is_ref_char, in_range, Spec.ref_char. cbv zeta.
  rewrite !orb_true_iff, !andb_true_iff, !Nat.leb_le.
  assert (Hhyphen : Ascii.eqb c "-" = true <-> nat_of_ascii c = 45).
  { rewrite Ascii.eqb_eq. split; [by intros ->|].
    intros H. rewrite <- (ascii_nat_embedding c), H. reflexivity. }
  assert (Hunderscore : Ascii.eqb c "_" = true <-> nat_of_ascii c = 95).
  { rewrite Ascii.eqb_eq. split; [by intros ->|].
    intros H. rewrite <- (ascii_nat_embedding c), H. reflexivity. }
  rewrite Hhyphen, Hunderscore. simpl. tauto.
Qed.

Lemma project_ref_at_literal (ref : string) :
  ref <> "" -> Spec.is_project_ref ref ->
  project_ref_at ("supabase.com/dashboard/project/" +:+ ref) = Some ref.
Proof.
  intros Hne Hcls. unfold project_ref_at.
  rewrite strip_prefix_append, take_while_all.
  - destruct (String.eqb_spec ref ""); [contradiction|reflexivity].
  - eapply Forall_impl; [exact Hcls|]. intros c Hc. by apply is_ref_char_spec.
Qed.

Lemma strip_prefix_cons (a b : ascii) (p s : string) :
  strip_prefix (String a p) (String b s) =
  if Ascii.eqb a b then strip_prefix p s else None.
Proof. reflexivity. Qed.

Lemma regexp_match_cons {A : Type} (f : string -> option A) (c : ascii) (s : string) :
  regexp_match f (String c s) =
  match f (String c s) with
  | Some m => Some m
  | None => regexp_match f s
  end.
Proof. reflexivity. Qed.

Lemma regexp_match_here {A : Type} (f : string -> option A) (s : string) (m : A) :
  f s = Some m -> regexp_match f s = Some m.
Proof. intros H. destruct s; simpl; by rewrite H. Qed.

(** No match starts at a character other than the first of the literal. *)
Lemma project_ref_at_other (c : ascii) (s : string) :
  c <> "s"%char -> project_ref_at (String c s) = None.
Proof.
  intros Hc. unfold project_ref_at. rewrite strip_prefix_cons.
  destruct (Ascii.eqb_spec "s"%char c); [congruence|reflexivity].
Qed.

(** Nor at the [s] of [https:]. *)
Lemma project_ref_at_scheme (s : string) :
  project_ref_at (String "s" (String ":" s)) = None.
Proof. unfold project_ref_at. by rewrite !strip_prefix_cons. Qed.

(** C10.  Round trip of the URL helpers: for every non-empty project
    reference made of characters of [[a-zA-Z0-9-_]] only,
    [extractProjectRefFromUrl (buildSupabaseDashboardUrl ref)] is [ref]. *)
Theorem extract_build_roundtrip (ref : string) :
  ref <> "" -> Spec.is_project_ref ref ->
  extractProjectRefFromUrl (buildSupabaseDashboardUrl ref) = Some ref.
Proof.
  intros Hne Hcls.
  pose proof (project_ref_at_literal ref Hne Hcls) as Hat.
  unfold extractProjectRefFromUrl, buildSupabaseDashboardUrl.
  change ("https://supabase.com/dashboard/project/" +:+ ref)
    with (String "h" (String "t" (String "t" (String "p"
           (String "s" (String ":" (String "/" (String "/"
             ("supabase.com/dashboard/project/" +:+ ref))))))))).
  set (tail := "supabase.com/dashboard/project/" +:+ ref) in *.
  do 4 (rewrite regexp_match_cons, project_ref_at_other by discriminate).
  rewrite regexp_match_cons, project_ref_at_scheme.
  do 3 (rewrite regexp_match_cons, project_ref_at_other by discriminate).
  by apply regexp_match_here.
Qed.

Lemma extract_build_roundtrip_witness :
  extractProjectRefFromUrl (buildSupabaseDashboardUrl "abc-DEF_12") = Some "abc-DEF_12".
Proof.
  apply (extract_build_roundtrip "abc-DEF_12").
  - discriminate.
  - unfold Spec.is_project_ref, Spec.ref_char. simpl.
    repeat (constructor; [vm_compute; lia|]). constructor.
Defined.

End ExtractorFacts.

(** * The navigation guard *)

Section NavigationGuard.
Import Url Browser.
Context {P : Parser}.

Lemma suffix_with_prefix (host suffix : string) :
  JS.endsWith host suffix && Nat.ltb (String.length suffix) (String.length host) = true
  <-> exists p, p <> "" /\ host = p +:+ suffix.
Proof.
  rewrite andb_true_iff, endsWith_spec, Nat.ltb_lt. split.
  - intros [[p ->] Hlen]. exists p. split; [|reflexivity].
    intros ->. rewrite length_append in Hlen. simpl in Hlen. lia.
  - intros [p [Hp ->]]. split; [by exists p|].
    rewrite length_append. destruct p; [congruence|simpl; lia].
Qed.

(** The guard allows exactly the URLs that parse and whose host is on the
    allow-list. *)
Lemma navigationRules_true_iff (url : string) :
  navigationRules url = true <->
  exists u, URL_new url None = Some u /\
            (Spec.allowed_exact (hostname u) \/ Spec.allowed_suffix (hostname u)).
Proof.
  unfold navigationRules, Spec.allowed_exact, Spec.allowed_suffix.
  destruct (URL_new url None) as [u|].
  - rewrite !orb_true_iff, !String.eqb_eq, !suffix_with_prefix. split.
    + intros H. exists u. split; [reflexivity|].
      destruct H as [[[[H|H]|H]|[p [Hp H]]]|[p [Hp H]]]; eauto 8.
    + intros [u' [Hu H]]. injection Hu as <-.
      destruct H as [[H|[H|H]]|[p [Hp [H|H]]]]; eauto 8.
  - split; [discriminate|]. intros [u [Hu _]]. discriminate.
Qed.

(** C1.  The navigation guard fails closed: [navigationRules] returns
    [false] on every string that the URL parser rejects, and on every URL
    whose host neither equals an allowed host nor ends with an allowed
    suffix after a non-empty prefix. *)
Theorem navigationRules_denies (url : string) :
  (URL_new url None = None -> navigationRules url = false) /\
  (forall u, URL_new url None = Some u ->
             ~ Spec.allowed_exact (hostname u) ->
             ~ Spec.allowed_suffix (hostname u) ->
             navigationRules url = false).
Proof.
  split.
  - intros Hfail. apply not_true_is_false. rewrite navigationRules_true_iff.
    intros [u [Hu _]]. congruence.
  - intros u Hu Hexact Hsuffix. apply not_true_is_false.
    rewrite navigationRules_true_iff. intros [u' [Hu' H]].
    assert (u' = u) as -> by congruence. tauto.
Qed.

End NavigationGuard.

Lemma navigationRules_denies_witness :
  @Browser.navigationRules Url.reference "https://supabase.com.evil.example/login" = false /\
  @Browser.navigationRules Url.reference "supabase.com" = false.
Proof.
  pose proof (@navigationRules_denies Url.reference
                "https://supabase.com.evil.example/login") as [_ Hhost].
  pose proof (@navigationRules_denies Url.reference "supabase.com") as [Hparse _].
  split.
  - apply (Hhost (Url.mkURL "supabase.com.evil.example" "/login" [])).
    + reflexivity.
    + unfold Spec.allowed_exact. simpl. intuition discriminate.
    + intros [p [_ [H|H]]].
      * assert (JS.endsWith "supabase.com.evil.example" ".supabase.com" = true)
          by (apply endsWith_spec; eauto).
        discriminate.
      * assert (JS.endsWith "supabase.com.evil.example" ".supabase.io" = true)
          by (apply endsWith_spec; eauto).
        discriminate.
  - apply Hparse. reflexivity.
Defined.

(** * The browser extraction engine *)

Section ExtractionEngine.
Import Url Effect Value Extractor Browser.
Context {P : Parser}.

(** On a page that passes both URL tests the outcome is decided by the two
    scripts. *)
Lemma extractTokens_on_authenticated (wc : WebContents) (evaluated : list string) :
  isSupabaseLoginPage (getURL wc) = false ->
  isSupabaseAuthenticatedPage (getURL wc) = true ->
  fst (extractTokens wc evaluated) =
  Ok (if Spec.reports_success wc
      then option_map (Spec.credential wc) (Spec.reported_token wc)
      else None).
Proof.
  intros Hlogin Hauth.
  unfold extractTokens, Spec.reports_success, Spec.reported_token, Spec.verification.
  rewrite Hlogin, Hauth. simpl.
  unfold try_catch, bind, evaluate, await, ret.
  destruct (executeJavaScript wc
              (buildSupabaseTokenExtractionScript
                 (extractProjectRefFromUrl (getURL wc)))) as [result|e];
    [|reflexivity].
  destruct result as [| |b|n|s|fields]; simpl; try reflexivity;
    (destruct (executeJavaScript wc tokenScript) as [token|e]; simpl;
     repeat (case_match; simplify_eq/=); reflexivity).
Qed.

(** C8.  [extractTokens] is gated by the classification of the URL: on a
    login page, and on a page that is not classified authenticated, it
    returns null and evaluates no script; on an authenticated page whose
    verification script does not report success, or whose storage probe
    yields no token, it returns null; it never throws; and a credential
    record comes only from an authenticated page on which a token was
    reported, and then it holds that token, the project reference of the
    URL and the URL. *)
Theorem extractTokens_gated (wc : WebContents) (evaluated : list string) :
  (isSupabaseLoginPage (getURL wc) = true ->
   extractTokens wc evaluated = (Ok None, evaluated)) /\
  (isSupabaseAuthenticatedPage (getURL wc) = false ->
   extractTokens wc evaluated = (Ok None, evaluated)) /\
  (isSupabaseAuthenticatedPage (getURL wc) = true ->
   Spec.reports_success wc = false \/ Spec.reported_token wc = None ->
   fst (extractTokens wc evaluated) = Ok None) /\
  (exists r, fst (extractTokens wc evaluated) = Ok r) /\
  (forall cred, fst (extractTokens wc evaluated) = Ok (Some cred) ->
     isSupabaseAuthenticatedPage (getURL wc) = true /\
     isSupabaseLoginPage (getURL wc) = false /\
     exists token, Spec.reported_token wc = Some token /\
                   cred = Spec.credential wc token).
Proof.
  assert (Hlogin : isSupabaseLoginPage (getURL wc) = true ->
                   extractTokens wc evaluated = (Ok None, evaluated)).
  { intros H. unfold extractTokens. by rewrite H. }
  assert (Hother : isSupabaseAuthenticatedPage (getURL wc) = false ->
                   extractTokens wc evaluated = (Ok None, evaluated)).
  { intros H. unfold extractTokens. rewrite H.
    by destruct (isSupabaseLoginPage (getURL wc)). }
  repeat split.
  - exact Hlogin.
  - exact Hother.
  - intros Hauth Hnone.
    destruct (isSupabaseLoginPage (getURL wc)) eqn:Hl; [by rewrite Hlogin|].
    rewrite extractTokens_on_authenticated by assumption.
    destruct Hnone as [-> | ->]; [reflexivity|].
    by destruct (Spec.reports_success wc).
  - destruct (isSupabaseLoginPage (getURL wc)) eqn:Hl; [rewrite Hlogin; eauto|].
    destruct (isSupabaseAuthenticatedPage (getURL wc)) eqn:Ha;
      [|rewrite Hother; eauto].
    rewrite extractTokens_on_authenticated by assumption. eauto.
  - destruct (isSupabaseAuthenticatedPage (getURL wc)) eqn:Ha; [reflexivity|].
    rewrite Hother in H by reflexivity. discriminate.
  - destruct (isSupabaseLoginPage (getURL wc)) eqn:Hl; [|reflexivity].
    rewrite Hlogin in H by reflexivity. discriminate.
  - destruct (isSupabaseLoginPage (getURL wc)) eqn:Hl;
      [rewrite Hlogin in H by reflexivity; discriminate|].
    destruct (isSupabaseAuthenticatedPage (getURL wc)) eqn:Ha;
      [|rewrite Hother in H by reflexivity; discriminate].
    rewrite extractTokens_on_authenticated in H by assumption.
    destruct (Spec.reports_success wc); [|discriminate].
    destruct (Spec.reported_token wc) as [token|]; [|discriminate].
    exists token. split; [reflexivity|]. simpl in H. congruence.
Qed.

End ExtractionEngine.

Lemma extractTokens_gated_witness :
  let token := Effect.Ok (Value.JString "sbp_0123") in
  let dashboard := "https://supabase.com/dashboard/project/abc123" in
  let ready := Example.page dashboard (Effect.Ok Example.success_report) token in
  @Browser.extractTokens Url.reference
    (Example.page "https://supabase.com/dashboard/sign-in"
       (Effect.Ok Example.success_report) token) []
  = (Effect.Ok None, []) /\
  @Browser.extractTokens Url.reference
    (Example.page "https://supabase.com/docs"
       (Effect.Ok Example.success_report) token) []
  = (Effect.Ok None, []) /\
  fst (@Browser.extractTokens Url.reference
         (Example.page dashboard (Effect.Ok Example.failure_report) token) [])
  = Effect.Ok None /\
  (@Extractor.isSupabaseAuthenticatedPage Url.reference dashboard = true /\
   @Extractor.isSupabaseLoginPage Url.reference dashboard = false /\
   exists t,
     Spec.reported_token ready = Some t /\
     Spec.credential ready (Value.JString "sbp_0123") = Spec.credential ready t).
Proof.
  intros token dashboard ready.
  destruct (@extractTokens_gated Url.reference
              (Example.page "https://supabase.com/dashboard/sign-in"
                 (Effect.Ok Example.success_report) token) [])
    as (Hlogin & _).
  destruct (@extractTokens_gated Url.reference
              (Example.page "https://supabase.com/docs"
                 (Effect.Ok Example.success_report) token) [])
    as (_ & Hother & _).
  destruct (@extractTokens_gated Url.reference
              (Example.page dashboard (Effect.Ok Example.failure_report) token) [])
    as (_ & _ & Hfailed & _).
  destruct (@extractTokens_gated Url.reference ready [])
    as (_ & _ & _ & _ & Hcred).
  split; [apply Hlogin; reflexivity|].
  split; [apply Hother; reflexivity|].
  split; [apply Hfailed; [reflexivity|left; reflexivity]|].
  apply (Hcred (Spec.credential ready (Value.JString "sbp_0123"))).
  reflexivity.
Defined.

(** * The client information resolver *)

Section ClientInformation.
Import Effect Provider.

Lemma truthy_decide (s : string) :
  JS.truthy s = if decide (s = "") then false else true.
Proof.
  unfold JS.truthy. destruct (String.eqb_spec s ""); by case_decide.
Qed.

Lemma secret_if_truthy_identity (id : string) (secret : option string) :
  {| info_client_id := id; info_client_secret := secret_if_truthy secret |} =
  Spec.identity id secret.
Proof.
  unfold Spec.identity, secret_if_truthy. f_equal.
  destruct secret as [s|]; [|reflexivity]. simpl.
  rewrite truthy_decide. by case_decide.
Qed.

Lemma static_client_id_spec (config : OAuthServerConfig) :
  option_map (fun id => Spec.identity id (client_secret config)) (static_client_id config)
  = Spec.static_identity config.
Proof.
  unfold static_client_id, Spec.static_identity.
  destruct (client_id config) as [id|]; [|reflexivity].
  rewrite truthy_decide. case_decide; [reflexivity|].
  destruct (String.eqb_spec id ""); [contradiction|reflexivity].
Qed.

(** The resolver as a whole: the static identity if there is one, without
    a look at the store; else what the store hands out. *)
Lemma clientInformation_resolves (env : Env) (this : McpOAuthProvider) (w : World) :
  fst (clientInformation env this w) =
    Ok (match Spec.static_identity (config this) with
        | Some static => Some static
        | None => Spec.cached_registration env (serverId this)
        end) /\
  (is_Some (Spec.static_identity (config this)) ->
   trace (snd (clientInformation env this w)) =
   (trace w ++ [Log Info "Using static client registration from config"])%list).
Proof.
  rewrite <- static_client_id_spec. unfold clientInformation.
  destruct (static_client_id (config this)) as [id|]; simpl.
  - by rewrite secret_if_truthy_identity.
  - split; [|by intros [? ?]].
    unfold Spec.cached_registration, call_getById, try_catch, bind, emit,
      modify, await, log, ret. simpl.
    destruct (McpServerModel_getById env (serverId this)) as [[[|row rows]|]|e];
      simpl; try reflexivity.
    destruct (oauthClientInfo row) as [stored|]; simpl; [|reflexivity].
    by rewrite secret_if_truthy_identity.
Qed.

(** C2.  With a non-empty static client id, [clientInformation] returns the
    static identity and does not consult the store, whatever the store
    holds.  Without one it returns the cached registration of the store,
    and it returns [undefined] exactly when there is neither a static
    identity nor a cached registration. *)
Theorem clientInformation_priority (env : Env) (this : McpOAuthProvider) (w : World) :
  (forall static, Spec.static_identity (config this) = Some static ->
     fst (clientInformation env this w) = Ok (Some static) /\
     exists events,
       trace (snd (clientInformation env this w)) = (trace w ++ events)%list /\
       ~ Spec.consults_store events) /\
  (Spec.static_identity (config this) = None ->
     fst (clientInformation env this w) =
     Ok (Spec.cached_registration env (serverId this))) /\
  (fst (clientInformation env this w) = Ok None <->
     Spec.static_identity (config this) = None /\
     Spec.cached_registration env (serverId this) = None).
Proof.
  destruct (clientInformation_resolves env this w) as [Hres Htrace].
  split; [|split].
  - intros static Hstatic. split.
    + rewrite Hres. by rewrite Hstatic.
    + eexists. split; [apply Htrace; by rewrite Hstatic|].
      intros [id [Hin|[]]]. discriminate.
  - intros Hnone. rewrite Hres. by rewrite Hnone.
  - rewrite Hres. split.
    + intros Hundef.
      destruct (Spec.static_identity (config this)); [discriminate|].
      split; [reflexivity|congruence].
    + intros [Hs Hc]. by rewrite Hs, Hc.
Qed.

End ClientInformation.

Lemma clientInformation_priority_witness :
  fst (Provider.clientInformation Example.online
         (Example.provider (Some "static-7") 0 0) Spec.initial_world)
  = Effect.Ok (Some {| Provider.info_client_id := "static-7";
                       Provider.info_client_secret := None |}) /\
  fst (Provider.clientInformation Example.online
         (Example.provider (Some "") 0 0) Spec.initial_world)
  = Effect.Ok (Some Example.registered) /\
  fst (Provider.clientInformation Example.offline
         (Example.provider None 0 0) Spec.initial_world)
  = Effect.Ok None.
Proof.
  split; [|split].
  - apply (clientInformation_priority Example.online
             (Example.provider (Some "static-7") 0 0) Spec.initial_world).
    reflexivity.
  - apply (clientInformation_priority Example.online
             (Example.provider (Some "") 0 0) Spec.initial_world).
    reflexivity.
  - apply (clientInformation_priority Example.offline
             (Example.provider None 0 0) Spec.initial_world).
    split; reflexivity.
Defined.

(** * Scope discovery *)

Section ScopeDiscovery.
Import Effect Provider.

Lemma elements_middle (h1 h2 : list (list string)) (l : list string) :
  elements (h1 ++ l :: h2)%list (length h1) = l.
Proof. unfold elements. by rewrite (list_lookup_middle h1 h2 l (length h1)). Qed.

(** Allocation leaves the arrays that exist alone. *)
Lemma elements_old (h extra : list (list string)) (r : ref) :
  r < length h -> elements (h ++ extra)%list r = elements h r.
Proof. intros Hr. unfold elements. by rewrite lookup_app_l. Qed.

Lemma or_else_well_known (config : OAuthServerConfig) :
  JS.or_else (well_known_url config)
    (server_url config +:+ "/.well-known/oauth-authorization-server")
  = Spec.well_known config.
Proof.
  unfold JS.or_else, Spec.well_known.
  destruct (well_known_url config) as [u|]; [|reflexivity].
  rewrite truthy_decide. by case_decide.
Qed.

Lemma first_nonempty_nonempty (candidates : list (list string)) (fallback : list string) :
  fallback <> [] -> Spec.first_nonempty candidates fallback <> [].
Proof.
  intros Hf. induction candidates as [|[|x c] rest IH]; simpl; [done|done|discriminate].
Qed.

(** A run of [discoverScopes]: it returns a reference, it only adds arrays
    and events, and the array it returns holds the scopes that the priority
    chain selects.  The reference is the one of the default scopes or a new
    one. *)
Lemma discoverScopes_run (env : Env) (config : OAuthServerConfig) (w : World) :
  default_scopes config < length (heap w) ->
  exists r extra events,
    fst (discoverScopes env config w) = Ok r /\
    heap (snd (discoverScopes env config w)) = (heap w ++ extra)%list /\
    trace (snd (discoverScopes env config w)) = (trace w ++ events)%list /\
    elements (heap w ++ extra)%list r =
      Spec.resolved_scopes env config (elements (heap w) (default_scopes config)) /\
    (r = default_scopes config \/ length (heap w) <= r) /\
    r < length (heap w ++ extra)%list /\
    (supports_resource_metadata config = false ->
     forall url, ~ In (CallDiscoverResource url) events).
Proof.
  intros Hvalid.
  unfold Spec.resolved_scopes, Spec.resource_scopes, Spec.auth_server_scopes.
  unfold discoverScopes, call_discoverOAuthProtectedResourceMetadata,
    call_discoverAuthorizationServerMetadata, nonempty_scopes, received,
    try_catch, bind, log, emit, modify, await, ret, alloc, read, set_heap.
  rewrite or_else_well_known.
  destruct (supports_resource_metadata config);
    [destruct (discoverOAuthProtectedResourceMetadata env (server_url config))
       as [[[[[|x l]|]]|]|e]|];
    destruct (discoverAuthorizationServerMetadata env (Spec.well_known config))
      as [[[[[|y l']|]]|]|e'];
    simpl; rewrite ?elements_middle; simpl; rewrite ?elements_middle; simpl.
  all: eexists _, _, _.
  all: split; [reflexivity|].
  all: split;
    [first [rewrite <- ?app_assoc; reflexivity | symmetry; apply app_nil_r]|].
  all: split;
    [first [rewrite <- ?app_assoc; reflexivity | symmetry; apply app_nil_r]|].
  all: split;
    [first [ by rewrite elements_old by lia
           | by apply elements_middle
           | by rewrite app_assoc; apply elements_middle
           | by rewrite app_nil_r ]|].
  all: split; [first [by left | right; rewrite ?length_app; simpl; lia]|].
  all: split; [rewrite ?length_app; simpl; lia|].
  all: try discriminate.
  all: intros _ url Hin; simpl in Hin; intuition discriminate.
Qed.

(** C5.  Scope discovery is a priority chain in which the first non-empty
    result wins: the scopes of the resource metadata (consulted only when
    the configuration advertises support for it), then those of the
    authorization-server metadata at the configured or derived well-known
    URL, then the configured default scopes.  A failing discovery step
    counts as no result and [discoverScopes] never throws; with non-empty
    default scopes the scopes it returns are not empty. *)
Theorem discoverScopes_priority (env : Env) (config : OAuthServerConfig) (w : World) :
  default_scopes config < length (heap w) ->
  exists r events,
    fst (discoverScopes env config w) = Ok r /\
    elements (heap (snd (discoverScopes env config w))) r =
      Spec.resolved_scopes env config (elements (heap w) (default_scopes config)) /\
    trace (snd (discoverScopes env config w)) = (trace w ++ events)%list /\
    (supports_resource_metadata config = false ->
     forall url, ~ In (CallDiscoverResource url) events) /\
    (elements (heap w) (default_scopes config) <> [] ->
     elements (heap (snd (discoverScopes env config w))) r <> []).
Proof.
  intros Hvalid.
  destruct (discoverScopes_run env config w Hvalid)
    as (r & extra & events & Hr & Hheap & Htrace & Hel & _ & _ & Hres).
  exists r, events. rewrite Hheap, Hel. repeat split; try assumption.
  intros Hne. by apply first_nonempty_nonempty.
Qed.

End ScopeDiscovery.

Lemma discoverScopes_priority_witness :
  exists r events,
    fst (Provider.discoverScopes Example.online (Example.server_config None 0 1)
           (Example.world [["openid"]; ["read"; "write"]])) = Effect.Ok r /\
    Provider.elements
      (Provider.heap
         (snd (Provider.discoverScopes Example.online (Example.server_config None 0 1)
                 (Example.world [["openid"]; ["read"; "write"]])))) r
    = Spec.resolved_scopes Example.online (Example.server_config None 0 1)
        ["read"; "write"] /\
    Provider.trace
      (snd (Provider.discoverScopes Example.online (Example.server_config None 0 1)
              (Example.world [["openid"]; ["read"; "write"]])))
    = ([] ++ events)%list /\
    (true = false -> forall url, ~ In (Provider.CallDiscoverResource url) events) /\
    (["read"; "write"] <> [] ->
     Provider.elements
       (Provider.heap
          (snd (Provider.discoverScopes Example.online (Example.server_config None 0 1)
                  (Example.world [["openid"]; ["read"; "write"]])))) r
     <> []).
Proof.
  apply (discoverScopes_priority Example.online (Example.server_config None 0 1)
           (Example.world [["openid"]; ["read"; "write"]])).
  simpl. lia.
Defined.

(** * The PKCE verifier store *)

Section VerifierStore.
Import Effect Provider.

Lemma codeVerifier_lookup (this : McpOAuthProvider) (w : World) :
  fst (codeVerifier this w) =
  match codeVerifierStore w !! serverId this with
  | Some v => if decide (v = "") then Throw missing_verifier else Ok v
  | None => Throw missing_verifier
  end.
Proof.
  unfold codeVerifier, bind, get. simpl.
  destruct (codeVerifierStore w !! serverId this) as [v|]; simpl; [|reflexivity].
  rewrite truthy_decide. by case_decide.
Qed.

Lemma clear_run (env : Env) (this : McpOAuthProvider) (w : World) :
  fst (clear env this w) = Ok tt /\
  codeVerifierStore (snd (clear env this w)) = delete (serverId this) (codeVerifierStore w).
Proof.
  unfold clear, call_update, try_catch, bind, log, emit, modify, await, ret, set_store.
  simpl. by destruct (McpServerModel_update env (serverId this) cleared_fields).
Qed.

Lemma perform_run (env : Env) (c : Spec.call) (w : World) (id : string) :
  fst (Spec.perform env c w) = Ok tt /\
  codeVerifierStore (snd (Spec.perform env c w)) !! id =
  Spec.after_call id (codeVerifierStore w !! id) c.
Proof.
  destruct c as [this v|this]; simpl.
  - split; [reflexivity|]. unfold saveCodeVerifier, modify, set_store. simpl.
    case_decide as Hid.
    + subst id. apply lookup_insert_eq.
    + by apply lookup_insert_ne.
  - destruct (clear_run env this w) as [Hok Hstore]. split; [exact Hok|].
    rewrite Hstore. case_decide as Hid.
    + subst id. apply lookup_delete_eq.
    + by apply lookup_delete_ne.
Qed.

Lemma perform_all_run (env : Env) (calls : list Spec.call) (w : World) (id : string) :
  fst (Spec.perform_all env calls w) = Ok tt /\
  codeVerifierStore (snd (Spec.perform_all env calls w)) !! id =
  foldl (Spec.after_call id) (codeVerifierStore w !! id) calls.
Proof.
  revert w. induction calls as [|c calls IH]; intros w; [by split|].
  simpl. unfold bind.
  destruct (perform_run env c w id) as [Hok Hstore].
  destruct (Spec.perform env c w) as [res w1]. simpl in Hok, Hstore. subst res.
  rewrite <- Hstore. apply IH.
Qed.

(** C6, as the code has it.  After any sequence of [saveCodeVerifier] and
    [clear] calls, [codeVerifier] fails with the missing-verifier error
    exactly when no verifier was saved for the provider's [serverId] since
    the last [clear] for it, or the verifier saved last is the empty string;
    a non-empty verifier saved last is returned. *)
Theorem codeVerifier_missing_iff (env : Env) (calls : list Spec.call)
  (this : McpOAuthProvider) :
  let outcome :=
    fst (codeVerifier this (snd (Spec.perform_all env calls Spec.initial_world))) in
  (outcome = Throw missing_verifier <->
   Spec.last_saved (serverId this) calls = None \/
   Spec.last_saved (serverId this) calls = Some "") /\
  (forall v, Spec.last_saved (serverId this) calls = Some v -> v <> "" ->
             outcome = Ok v).
Proof.
  intros outcome. subst outcome. rewrite codeVerifier_lookup.
  destruct (perform_all_run env calls Spec.initial_world (serverId this)) as [_ ->].
  change (Spec.initial_world.(codeVerifierStore) !! serverId this)
    with ((∅ : gmap string string) !! serverId this).
  rewrite lookup_empty. fold (Spec.last_saved (serverId this) calls).
  destruct (Spec.last_saved (serverId this) calls) as [v|].
  - case_decide as Hv.
    + subst v. split; [split; auto|]. intros v [= <-] Hne. done.
    + split.
      * split; [discriminate|]. intros [H|H]; [discriminate|congruence].
      * intros v' [= <-] _. reflexivity.
  - split; [split; auto|]. intros v H. discriminate.
Qed.

(** C7.  [clear] never throws.  After it, [codeVerifier] fails with the
    missing-verifier error, whether the update of the database succeeded or
    not; a failed update is logged as an error. *)
Theorem clear_forgets_verifier (env : Env) (this : McpOAuthProvider) (w : World) :
  fst (clear env this w) = Ok tt /\
  fst (codeVerifier this (snd (clear env this w))) = Throw missing_verifier /\
  (forall e, McpServerModel_update env (serverId this) cleared_fields = Throw e ->
     In (Log Err "Failed to clear OAuth data from database:")
        (trace (snd (clear env this w)))).
Proof.
  destruct (clear_run env this w) as [Hok Hstore].
  split; [exact Hok|]. split.
  - rewrite codeVerifier_lookup, Hstore. by rewrite lookup_delete_eq.
  - intros e He.
    unfold clear, call_update, try_catch, bind, log, emit, modify, await, ret,
      set_store. simpl. rewrite He. simpl.
    apply in_or_app. right. by left.
Qed.

End VerifierStore.

Lemma codeVerifier_missing_iff_witness :
  let this := Example.provider None 0 0 in
  fst (Provider.codeVerifier this
         (snd (Spec.perform_all Example.offline
                 [Spec.SaveCodeVerifier this "v1"; Spec.Clear this]
                 Spec.initial_world)))
  = Effect.Throw Provider.missing_verifier /\
  fst (Provider.codeVerifier this
         (snd (Spec.perform_all Example.offline
                 [Spec.SaveCodeVerifier this "v1"; Spec.SaveCodeVerifier this "v2"]
                 Spec.initial_world)))
  = Effect.Ok "v2".
Proof.
  intros this. split.
  - apply (codeVerifier_missing_iff Example.offline
             [Spec.SaveCodeVerifier this "v1"; Spec.Clear this] this).
    left. reflexivity.
  - apply (codeVerifier_missing_iff Example.offline
             [Spec.SaveCodeVerifier this "v1"; Spec.SaveCodeVerifier this "v2"] this).
    + reflexivity.
    + discriminate.
Defined.

(** C6 as stated fails: a verifier was saved, no [clear] followed, and
    [codeVerifier] still reports a missing verifier, because the verifier
    saved is the empty string. *)
Lemma codeVerifier_empty_counterexample :
  Spec.last_saved (Provider.serverId Example.session)
    [Spec.SaveCodeVerifier Example.session ""] = Some "" /\
  fst (Provider.codeVerifier Example.session
         (snd (Spec.perform_all Example.online
                 [Spec.SaveCodeVerifier Example.session ""] Spec.initial_world)))
  = Effect.Throw Provider.missing_verifier.
Proof. split; reflexivity. Qed.

Lemma clear_forgets_verifier_witness :
  let this := Example.provider None 0 0 in
  let before :=
    snd (Provider.saveCodeVerifier this "v1" Spec.initial_world) in
  fst (Provider.clear Example.offline this before) = Effect.Ok tt /\
  fst (Provider.codeVerifier this (snd (Provider.clear Example.offline this before)))
  = Effect.Throw Provider.missing_verifier /\
  In (Provider.Log Provider.Err "Failed to clear OAuth data from database:")
     (Provider.trace (snd (Provider.clear Example.offline this before))).
Proof.
  intros this before.
  destruct (clear_forgets_verifier Example.offline this before)
    as (Hok & Hgone & Hlog).
  split; [exact Hok|]. split; [exact Hgone|].
  apply (Hlog (Effect.mkError "database is locked")). reflexivity.
Defined.

(** * The callback listener *)

Section CallbackListener.
Import Url Effect Provider.
Context {P : Parser}.

Lemma resolve_settled (code : string) (st : Listener) :
  promise st <> Pending -> resolve code st = st.
Proof. unfold resolve. by destruct (promise st). Qed.

Lemma reject_settled (reason : Error) (st : Listener) :
  promise st <> Pending -> reject reason st = st.
Proof. unfold reject. by destruct (promise st). Qed.

Lemma promise_resolve (code : string) (st : Listener) :
  promise (resolve code st) =
  match promise st with Pending => Fulfilled code | settled => settled end.
Proof. unfold resolve. by destruct (promise st) eqn:E. Qed.

Lemma promise_reject (reason : Error) (st : Listener) :
  promise (reject reason st) =
  match promise st with Pending => Rejected reason | settled => settled end.
Proof. unfold reject. by destruct (promise st) eqn:E. Qed.

Lemma responses_resolve (code : string) (st : Listener) :
  responses (resolve code st) = responses st.
Proof. unfold resolve. by destruct (promise st). Qed.

Lemma responses_reject (reason : Error) (st : Listener) :
  responses (reject reason st) = responses st.
Proof. unfold reject. by destruct (promise st). Qed.

(** The handler never looks at the listener: what it answers depends on the
    request alone. *)
Lemma on_request_responses (req : option string) (st : Listener) :
  responses (on_request req st) =
  (responses st ++ responses (on_request req startCallbackServer))%list.
Proof.
  unfold on_request.
  destruct (is_callback req); [|reflexivity].
  destruct (URL_new (default "" req) (Some "http://localhost:8080")) as [url|];
    [|by rewrite !responses_reject].
  destruct (JS.truthy_opt (searchParams_get (searchParams url) "error"));
    [by rewrite !responses_reject|].
  destruct (negb (JS.truthy_opt (searchParams_get (searchParams url) "code")));
    [by rewrite !responses_reject|by rewrite !responses_resolve].
Qed.

Lemma on_request_settled (req : option string) (st : Listener) :
  promise st <> Pending -> promise (on_request req st) = promise st.
Proof.
  intros Hst. unfold on_request.
  destruct (is_callback req); [|reflexivity].
  repeat case_match; rewrite ?promise_resolve, ?promise_reject; simpl;
    by destruct (promise st).
Qed.

Lemma deliver_settled (a : arrival) (st : Listener) :
  promise st <> Pending -> promise (deliver a st) = promise st.
Proof.
  intros Hst. destruct a as [req|e]; simpl.
  - by apply on_request_settled.
  - unfold on_error. by rewrite reject_settled.
Qed.

Lemma on_timeout_settled (st : Listener) :
  promise st <> Pending -> promise (on_timeout st) = promise st.
Proof.
  intros Hst. unfold on_timeout. rewrite promise_reject. simpl.
  by destruct (promise st).
Qed.

(** Once settled, always settled the same way. *)
Lemma event_loop_settled (timer : bool) (arrivals : list (N * arrival)) (st : Listener) :
  promise st <> Pending -> promise (event_loop timer arrivals st) = promise st.
Proof.
  revert timer st. induction arrivals as [|[t a] rest IH]; intros timer st Hst; simpl.
  - destruct timer; [by apply on_timeout_settled|reflexivity].
  - destruct (timer && N.leb TIMEOUT_MS t).
    + rewrite IH.
      * rewrite deliver_settled; rewrite on_timeout_settled; congruence.
      * rewrite deliver_settled; rewrite on_timeout_settled; congruence.
    + rewrite IH; rewrite deliver_settled; congruence.
Qed.

(** What a request is answered, on any listener. *)
Lemma first_answer (req : option string) :
  (is_callback req = false /\
   responses (on_request req startCallbackServer) = [Spec.waiting]) \/
  (is_callback req = true /\
   exists status body,
     responses (on_request req startCallbackServer) =
       [ {| status := status; body := body |} ] /\
     (status = 200 \/ status = 400 \/ status = 500)).
Proof.
  unfold on_request. destruct (is_callback req); [right|left; by split].
  split; [reflexivity|].
  repeat case_match; rewrite ?responses_resolve, ?responses_reject; simpl;
    eauto 8.
Qed.

(** A callback request settles the flow, if it is not settled yet. *)
Lemma on_request_callback_settles (req : option string) (st : Listener) :
  is_callback req = true -> promise (on_request req st) <> Pending.
Proof.
  intros Hcb. unfold on_request. rewrite Hcb.
  repeat case_match; rewrite ?promise_resolve, ?promise_reject; simpl;
    by destruct (promise st).
Qed.

(** C3, as the code has it.  The listener settles the flow once: after a
    first callback request has been handled the promise is settled, and no
    request, server error or timer changes the outcome afterwards.  A second
    request is answered as a first request would be: a callback request
    with 200, 400 or 500, and only a request that is not a callback request
    with the neutral 404 response. *)
Theorem listener_settles_once (first second : option string) (st0 : Listener)
  (timer : bool) (arrivals : list (N * arrival)) :
  is_callback first = true ->
  promise (on_request first st0) <> Pending /\
  promise (on_request second (on_request first st0)) = promise (on_request first st0) /\
  promise (event_loop timer arrivals (on_request first st0))
  = promise (on_request first st0) /\
  responses (on_request second (on_request first st0)) =
    (responses (on_request first st0)
     ++ responses (on_request second startCallbackServer))%list /\
  (is_callback second = false <->
   responses (on_request second startCallbackServer) = [Spec.waiting]) /\
  (is_callback second = true ->
   exists status body,
     responses (on_request second startCallbackServer) =
       [ {| status := status; body := body |} ] /\
     (status = 200 \/ status = 400 \/ status = 500)).
Proof.
  intros Hfirst.
  pose proof (on_request_callback_settles first st0 Hfirst) as Hst.
  split; [exact Hst|].
  split; [by apply on_request_settled|].
  split; [by apply event_loop_settled|].
  split; [apply on_request_responses|].
  destruct (first_answer second) as [[Hq Hr]|[Hq (status & body & Hr & Hs)]].
  - split; [by split|]. congruence.
  - split; [|eauto]. split; [congruence|].
    rewrite Hr. intros [= -> _]. destruct Hs as [Hs|[Hs|Hs]]; discriminate.
Qed.

End CallbackListener.

Section CallbackOutcomes.
Import Url Effect Provider.
Context {P : Parser}.

Lemma truthy_opt_present (v : option string) :
  JS.truthy_opt v = true <-> Spec.present v.
Proof.
  unfold Spec.present. destruct v as [s|]; simpl.
  - rewrite truthy_decide. case_decide as Hs.
    + split; [discriminate|]. intros [s' [[= <-] Hne]]. contradiction.
    + split; [eauto|reflexivity].
  - split; [discriminate|]. intros [s [H _]]. discriminate.
Qed.

Lemma truthy_opt_absent (v : option string) :
  JS.truthy_opt v = false <-> ~ Spec.present v.
Proof.
  rewrite <- truthy_opt_present. destruct (JS.truthy_opt v); split; congruence.
Qed.

Lemma answered_settle (st st1 st2 : Listener) (status : nat) :
  Spec.answered st st1 status -> responses st2 = responses st1 ->
  Spec.answered st st2 status.
Proof. intros [body H] Heq. exists body. congruence. Qed.

Lemma answered_respond (st : Listener) (status : nat) (body : string) :
  Spec.answered st (server_close (respond status body st)) status.
Proof. by exists body. Qed.

(** Requests that are not callback requests leave a pending flow pending
    until the timer fires. *)
Lemma event_loop_times_out (arrivals : list (N * arrival)) (st : Listener) :
  promise st = Pending ->
  (forall t a, In (t, a) arrivals -> (t < TIMEOUT_MS)%N ->
     exists req, a = Request req /\ is_callback req = false) ->
  promise (event_loop true arrivals st) = Rejected Spec.timed_out.
Proof.
  revert st. induction arrivals as [|[t a] rest IH]; intros st Hst Hquiet; simpl.
  - unfold on_timeout. rewrite promise_reject. simpl. by rewrite Hst.
  - destruct (N.leb_spec TIMEOUT_MS t) as [Hlate|Hearly]; simpl.
    + rewrite event_loop_settled.
      * rewrite deliver_settled.
        -- unfold on_timeout. rewrite promise_reject. simpl. by rewrite Hst.
        -- unfold on_timeout. rewrite promise_reject. simpl. by rewrite Hst.
      * rewrite deliver_settled;
          unfold on_timeout; rewrite promise_reject; simpl; by rewrite Hst.
    + destruct (Hquiet t a (or_introl eq_refl) Hearly) as [req [-> Hreq]].
      apply IH.
      * simpl. unfold on_request. by rewrite Hreq.
      * intros t' a' Hin. apply Hquiet. by right.
Qed.

(** C4, as the code has it.  On a pending flow, a callback request (one
    whose URL contains [code=] or starts with [/oauth/callback]) with a
    non-empty [error] parameter is answered 400 and fails the flow with the
    authorization error; without one and with a non-empty [code] it is
    answered 200 and resolves the flow with that code; with neither it is
    answered 400 and fails the flow; when its URL does not parse it is
    answered 500 and fails the flow.  Any other request is answered 404 and
    the flow stays pending.  When only such other requests arrive before
    the timer fires, the flow fails with the timeout error; the timer is set
    to five minutes. *)
Theorem callback_outcomes (req : option string) (st : Listener)
  (arrivals : list (N * arrival)) :
  promise st = Pending ->
  (is_callback req = true ->
   forall url, URL_new (default "" req) Spec.callback_base = Some url ->
     let code := searchParams_get (searchParams url) "code" in
     let error := searchParams_get (searchParams url) "error" in
     (forall e, error = Some e -> e <> "" ->
        promise (on_request req st) = Rejected (Spec.authorization_denied e) /\
        Spec.answered st (on_request req st) 400) /\
     (~ Spec.present error -> forall c, code = Some c -> c <> "" ->
        promise (on_request req st) = Fulfilled c /\
        Spec.answered st (on_request req st) 200) /\
     (~ Spec.present error -> ~ Spec.present code ->
        promise (on_request req st) = Rejected Spec.no_code /\
        Spec.answered st (on_request req st) 400)) /\
  (is_callback req = true ->
   URL_new (default "" req) Spec.callback_base = None ->
     (exists reason, promise (on_request req st) = Rejected reason) /\
     Spec.answered st (on_request req st) 500) /\
  (is_callback req = false ->
     promise (on_request req st) = Pending /\
     Spec.answered st (on_request req st) 404) /\
  ((forall t a, In (t, a) arrivals -> (t < TIMEOUT_MS)%N ->
      exists r, a = Request r /\ is_callback r = false) ->
   promise (event_loop true arrivals startCallbackServer) = Rejected Spec.timed_out) /\
  TIMEOUT_MS = 300000%N.
Proof.
  intros Hst. unfold Spec.callback_base. split; [|split; [|split; [|split]]];
    [| | | |reflexivity].
  - intros Hcb url Hurl.
    set (code := searchParams_get (searchParams url) "code").
    set (error := searchParams_get (searchParams url) "error").
    split; [|split].
    + intros e He Hne.
      assert (Ht : JS.truthy_opt error = true)
        by (apply truthy_opt_present; by exists e).
      unfold on_request. rewrite Hcb, Hurl. fold error. rewrite Ht, He. simpl.
      split.
      * rewrite promise_reject. simpl. by rewrite Hst.
      * eapply answered_settle; [apply answered_respond|apply responses_reject].
    + intros Herr c Hc Hne. apply truthy_opt_absent in Herr.
      assert (Ht : JS.truthy_opt code = true)
        by (apply truthy_opt_present; by exists c).
      unfold on_request. rewrite Hcb, Hurl. fold error code.
      rewrite Herr, Ht, Hc. simpl. split.
      * rewrite promise_resolve. simpl. by rewrite Hst.
      * eapply answered_settle; [apply answered_respond|apply responses_resolve].
    + intros Herr Hcode. apply truthy_opt_absent in Herr, Hcode.
      unfold on_request. rewrite Hcb, Hurl. fold error code.
      rewrite Herr, Hcode. simpl. split.
      * rewrite promise_reject. simpl. by rewrite Hst.
      * eapply answered_settle; [apply answered_respond|apply responses_reject].
  - intros Hcb Hurl. unfold on_request. rewrite Hcb, Hurl. split.
    + eexists. rewrite promise_reject. simpl. by rewrite Hst.
    + eapply answered_settle; [apply answered_respond|apply responses_reject].
  - intros Hcb. unfold on_request. rewrite Hcb. split; [exact Hst|].
    by exists waiting_body.
  - intros Hquiet. by apply event_loop_times_out.
Qed.

End CallbackOutcomes.

Lemma listener_settles_once_witness :
  Provider.promise
    (@Provider.on_request Url.reference (Some "/oauth/callback?error=access_denied")
       Example.settled)
  = Provider.Fulfilled "abc123" /\
  Provider.promise
    (@Provider.event_loop Url.reference true
       [(250%N, Provider.Request (Some "/oauth/callback?code=zzz"));
        (300000%N, Provider.ServerError (Effect.mkError "ECONNRESET"))]
       Example.settled)
  = Provider.Fulfilled "abc123".
Proof.
  destruct (@listener_settles_once Url.reference
              (Some "/oauth/callback?code=abc123")
              (Some "/oauth/callback?error=access_denied")
              Provider.startCallbackServer true
              [(250%N, Provider.Request (Some "/oauth/callback?code=zzz"));
               (300000%N, Provider.ServerError (Effect.mkError "ECONNRESET"))]
              eq_refl)
    as (_ & Hreq & Hloop & _).
  split.
  - unfold Example.settled. rewrite Hreq. reflexivity.
  - unfold Example.settled. rewrite Hloop. reflexivity.
Defined.

(** C3 as stated fails: a second callback request that reaches the handler
    after the flow is settled is answered with the terminal 200 page, not
    with the neutral response.  The outcome itself is unchanged. *)
Lemma second_callback_counterexample :
  Provider.promise Example.settled = Provider.Fulfilled "abc123" /\
  Provider.is_callback (Some "/oauth/callback?code=zzz") = true /\
  Provider.promise
    (@Provider.on_request Url.reference (Some "/oauth/callback?code=zzz") Example.settled)
  = Provider.Fulfilled "abc123" /\
  last (Provider.responses
          (@Provider.on_request Url.reference (Some "/oauth/callback?code=zzz")
             Example.settled))
  = Some {| Provider.status := 200;
            Provider.body := "<html><body><h1>Authorization Successful!</h1></body></html>" |} /\
  last (Provider.responses
          (@Provider.on_request Url.reference (Some "/oauth/callback?code=zzz")
             Example.settled))
  <> Some Spec.waiting.
Proof. repeat split; try reflexivity. discriminate. Qed.

Lemma callback_outcomes_witness :
  Provider.promise
    (@Provider.on_request Url.reference (Some "/oauth/callback?code=abc123")
       Provider.startCallbackServer)
  = Provider.Fulfilled "abc123" /\
  Provider.promise
    (@Provider.on_request Url.reference (Some "/oauth/callback?error=access_denied")
       Provider.startCallbackServer)
  = Provider.Rejected (Spec.authorization_denied "access_denied") /\
  Provider.promise
    (@Provider.on_request Url.reference (Some "/oauth/callback")
       Provider.startCallbackServer)
  = Provider.Rejected Spec.no_code /\
  Spec.answered Provider.startCallbackServer
    (@Provider.on_request Url.reference (Some "//[?code=abc123")
       Provider.startCallbackServer) 500 /\
  Spec.answered Provider.startCallbackServer
    (@Provider.on_request Url.reference (Some "/favicon.ico")
       Provider.startCallbackServer) 404 /\
  Provider.promise
    (@Provider.event_loop Url.reference true
       [(1200%N, Provider.Request (Some "/favicon.ico"))]
       Provider.startCallbackServer)
  = Provider.Rejected Spec.timed_out.
Proof.
  assert (Hpending : Provider.promise Provider.startCallbackServer = Provider.Pending)
    by reflexivity.
  assert (Habsent : ~ Spec.present None).
  { intros [s [H _]]. discriminate. }
  split; [|split; [|split; [|split; [|split]]]].
  - destruct (@callback_outcomes Url.reference (Some "/oauth/callback?code=abc123")
                Provider.startCallbackServer [] Hpending) as (Hparsed & _).
    apply (Hparsed eq_refl
             (Url.mkURL "localhost" "/oauth/callback" [("code", "abc123")]) eq_refl).
    + exact Habsent.
    + reflexivity.
    + discriminate.
  - destruct (@callback_outcomes Url.reference
                (Some "/oauth/callback?error=access_denied")
                Provider.startCallbackServer [] Hpending) as (Hparsed & _).
    apply (Hparsed eq_refl
             (Url.mkURL "localhost" "/oauth/callback" [("error", "access_denied")])
             eq_refl).
    + reflexivity.
    + discriminate.
  - destruct (@callback_outcomes Url.reference (Some "/oauth/callback")
                Provider.startCallbackServer [] Hpending) as (Hparsed & _).
    apply (Hparsed eq_refl (Url.mkURL "localhost" "/oauth/callback" []) eq_refl);
      exact Habsent.
  - destruct (@callback_outcomes Url.reference (Some "//[?code=abc123")
                Provider.startCallbackServer [] Hpending) as (_ & Hfailed & _).
    apply Hfailed; reflexivity.
  - destruct (@callback_outcomes Url.reference (Some "/favicon.ico")
                Provider.startCallbackServer [] Hpending) as (_ & _ & Hother & _).
    apply Hother. reflexivity.
  - destruct (@callback_outcomes Url.reference None Provider.startCallbackServer
                [(1200%N, Provider.Request (Some "/favicon.ico"))] Hpending)
      as (_ & _ & _ & Htimer & _).
    apply Htimer. intros t a [[= <- <-]|[]] _.
    exists (Some "/favicon.ico"). split; reflexivity.
Defined.

(** C4 as stated fails twice.  A request on an unrelated path that carries
    no [code] parameter is handled as a callback when its URL contains
    [code=]: it is answered 400 and fails the flow.  A callback request that
    carries an [error] parameter with an empty value is not an error: with a
    code it is answered 200 and resolves the flow. *)
Lemma loose_callback_counterexample :
  (@Url.URL_new Url.reference "/x?barcode=1" Spec.callback_base
   = Some (Url.mkURL "localhost" "/x" [("barcode", "1")]) /\
   @Provider.on_request Url.reference (Some "/x?barcode=1") Provider.startCallbackServer
   = {| Provider.promise := Provider.Rejected Spec.no_code;
        Provider.listening := false;
        Provider.responses :=
          [ {| Provider.status := 400;
               Provider.body := "<html><body><h1>No Authorization Code</h1></body></html>" |} ] |}) /\
  (@Url.URL_new Url.reference "/oauth/callback?error=&code=abc123" Spec.callback_base
   = Some (Url.mkURL "localhost" "/oauth/callback" [("error", ""); ("code", "abc123")]) /\
   @Provider.on_request Url.reference (Some "/oauth/callback?error=&code=abc123")
     Provider.startCallbackServer
   = {| Provider.promise := Provider.Fulfilled "abc123";
        Provider.listening := false;
        Provider.responses :=
          [ {| Provider.status := 200;
               Provider.body := "<html><body><h1>Authorization Successful!</h1></body></html>" |} ] |}).
Proof. repeat split. Qed.

(** * Initialization *)

Section Initialization.
Import Effect Provider.

Lemma elements_insert_eq (h : list (list string)) (r : ref) (l : list string) :
  r < length h -> elements (<[r := l]> h) r = l.
Proof. intros Hr. unfold elements. by rewrite list_lookup_insert_eq. Qed.

Lemma elements_insert_ne (h : list (list string)) (r r' : ref) (l : list string) :
  r <> r' -> elements (<[r := l]> h) r' = elements h r'.
Proof. intros Hr. unfold elements. by rewrite list_lookup_insert_ne. Qed.

Lemma unreachable_resolved (env : Env) (config : OAuthServerConfig)
  (defaults : list string) :
  Spec.unreachable env -> Spec.resolved_scopes env config defaults = defaults.
Proof.
  intros [Hres Hauth].
  unfold Spec.resolved_scopes, Spec.resource_scopes, Spec.auth_server_scopes.
  destruct (Hres (server_url config)) as [e ->].
  destruct (Hauth (Spec.well_known config)) as [e' ->].
  by destruct (supports_resource_metadata config).
Qed.

(** A run of [init].  [d] is the array that [discoverScopes] returned.  The
    provider is given [d] when the discovered scopes are not empty and
    their sorted list differs from the sorted configured list; unless
    nothing was discovered, both arrays are then sorted. *)
Lemma init_run (env : Env) (this : McpOAuthProvider) (w : World) :
  scopes (config this) < length (heap w) ->
  default_scopes (config this) < length (heap w) ->
  exists d extra,
    let configured := elements (heap w) (scopes (config this)) in
    let discovered := Spec.resolved_scopes env (config this)
                        (elements (heap w) (default_scopes (config this))) in
    (d = default_scopes (config this) \/ length (heap w) <= d) /\
    d < length (heap w ++ extra)%list /\
    elements (heap w ++ extra)%list d = discovered /\
    fst (init env this w) =
      Ok (if decide (discovered <> [] /\ JS.sort discovered <> JS.sort configured)
          then with_scopes this d else this) /\
    heap (snd (init env this w)) =
      if decide (discovered = []) then (heap w ++ extra)%list
      else <[scopes (config this) := JS.sort configured]>
             (<[d := JS.sort discovered]> (heap w ++ extra)%list).
Proof.
  intros Hs Hd.
  set (w0 := {| heap := heap w; codeVerifierStore := codeVerifierStore w;
                trace := ((((trace w ++ [Log Info "Server:"]) ++ [Log Info "Server Key:"])
                  ++ [Log Info "Config:"]) ++ [Log Info "Using configured scopes:"])%list |}).
  destruct (discoverScopes_run env (config this) w0 Hd)
    as (d & extra & events & Hres & Hheap & _ & Hel & Hfresh & Hlt & _).
  exists d, extra. simpl in Hheap, Hel, Hfresh, Hlt.
  cbv zeta.
  remember (Spec.resolved_scopes env (config this)
              (elements (heap w) (default_scopes (config this)))) as discovered
    eqn:Hdiscovered.
  remember (elements (heap w) (scopes (config this))) as configured eqn:Hconfigured.
  clear Hdiscovered.
  split; [exact Hfresh|]. split; [exact Hlt|]. split; [exact Hel|].
  assert (Hsorted :
    JS.sort (elements (<[d := JS.sort discovered]> (heap w ++ extra)%list)
               (scopes (config this))) = JS.sort configured).
  { destruct (decide (d = scopes (config this))) as [Heq|Hneq].
    - rewrite <- Heq, elements_insert_eq by exact Hlt.
      rewrite sort_idempotent. f_equal. rewrite <- Hel. subst configured.
      rewrite <- Heq. apply elements_old. lia.
    - rewrite elements_insert_ne by exact Hneq. f_equal. subst configured.
      by apply elements_old. }
  unfold init, try_catch, bind, log, emit, modify, read, array_sort, ret, set_heap.
  cbn -[JS.JSON_stringify JS.sort elements String.eqb discoverScopes].
  fold w0.
  destruct (discoverScopes env (config this) w0) as [res [h1 s1 t1]].
  simpl in Hres, Hheap. subst res h1.
  cbn -[JS.JSON_stringify JS.sort elements String.eqb].
  rewrite Hel.
  destruct (decide (discovered = [])) as [Hempty|Hne].
  - rewrite Hempty. simpl. split; [|reflexivity].
    first [reflexivity | case_decide as H; [by destruct H|reflexivity]].
  - destruct discovered as [|x l]; [done|].
    cbn -[JS.JSON_stringify JS.sort elements String.eqb].
    rewrite elements_insert_eq by exact Hlt.
    rewrite elements_insert_eq by (rewrite length_insert, length_app; lia).
    rewrite !Hel, Hsorted.
    destruct (String.eqb_spec (JS.JSON_stringify (JS.sort (x :: l)))
                (JS.JSON_stringify (JS.sort configured))) as [Heq|Hdiff];
      cbn -[JS.sort].
    + apply JSON_stringify_inj in Heq. split; [|reflexivity].
      case_decide as H; [by destruct H|reflexivity].
    + split; [|reflexivity].
      case_decide as H; [reflexivity|].
      exfalso. apply H. split; [exact Hne|]. intros Heq. apply Hdiff. by rewrite Heq.
Qed.

(** C9, as the code has it.  [init] gives the provider the discovered
    scopes exactly when they are not empty and differ from the configured
    scopes, the two lists being compared up to order; the provider then
    holds the discovered scopes, and otherwise it keeps its configured
    scopes.  An update shows as a change of the array that [config.scopes]
    refers to.  In particular, with default and configured scopes
    [["read"; "write"]] and no discovery endpoint reachable, [init] leaves
    the provider as it is, with scopes [["read"; "write"]].  The two
    hypotheses say that the configuration refers to arrays that exist. *)
Theorem init_updates_scopes (env : Env) (this : McpOAuthProvider) (w : World) :
  scopes (config this) < length (heap w) ->
  default_scopes (config this) < length (heap w) ->
  exists this',
    let configured := elements (heap w) (scopes (config this)) in
    let discovered :=
      Spec.resolved_scopes env (config this)
        (elements (heap w) (default_scopes (config this))) in
    let after := elements (heap (snd (init env this w))) (scopes (config this')) in
    fst (init env this w) = Ok this' /\
    (scopes (config this') <> scopes (config this) <->
     discovered <> [] /\ ~ discovered ≡ₚ configured) /\
    (scopes (config this') <> scopes (config this) -> after ≡ₚ discovered) /\
    (scopes (config this') = scopes (config this) ->
     this' = this /\ after ≡ₚ configured) /\
    (Spec.unreachable env ->
     elements (heap w) (default_scopes (config this)) = ["read"; "write"] ->
     configured = ["read"; "write"] ->
     this' = this /\ after = ["read"; "write"]).
Proof.
  intros Hs Hd.
  destruct (init_run env this w Hs Hd)
    as (d & extra & Hfresh & Hlt & Hel & Hres & Hheap).
  cbv zeta in Hel, Hres, Hheap. cbv zeta.
  pose proof (unreachable_resolved env (config this)
                (elements (heap w) (default_scopes (config this)))) as Hunreach.
  remember (Spec.resolved_scopes env (config this)
              (elements (heap w) (default_scopes (config this)))) as discovered
    eqn:Hdiscovered.
  remember (elements (heap w) (scopes (config this))) as configured eqn:Hconfigured.
  clear Hdiscovered.
  assert (Hextra : elements (heap w ++ extra)%list (scopes (config this)) = configured).
  { subst configured. by apply elements_old. }
  assert (Hlen : scopes (config this) < length (heap w ++ extra)%list).
  { rewrite length_app. lia. }
  destruct (decide (discovered <> [] /\ JS.sort discovered <> JS.sort configured))
    as [[Hne Hdiff]|Hsame].
  - (* the provider is given the discovered array *)
    assert (Hd_ne : d <> scopes (config this)).
    { intros ->. apply Hdiff. f_equal. congruence. }
    exists (with_scopes this d). rewrite Hheap.
    destruct (decide (discovered = [])) as [|_]; [done|].
    simpl scopes.
    rewrite elements_insert_ne by congruence.
    rewrite elements_insert_eq by exact Hlt.
    split; [exact Hres|]. split; [|split; [|split]].
    + split; [|done]. intros _. split; [exact Hne|].
      intros Hperm. apply Hdiff. by apply sort_eq_iff.
    + intros _. apply sort_perm.
    + intros Heq. done.
    + intros Hun Hdef Hconf. exfalso. apply Hdiff.
      rewrite (Hunreach Hun). congruence.
  - exists this. rewrite Hheap.
    assert (Hnot : ~ (discovered <> [] /\ ~ discovered ≡ₚ configured)).
    { intros [Hne Hperm]. apply Hsame. split; [exact Hne|].
      intros Heq. apply Hperm. by apply sort_eq_iff. }
    split; [exact Hres|]. split; [|split; [|split]].
    + split; [done|]. intros H. by destruct Hnot.
    + done.
    + intros _. split; [reflexivity|].
      destruct (decide (discovered = [])) as [Hempty|Hne].
      * by rewrite Hextra.
      * rewrite elements_insert_eq by (rewrite length_insert; exact Hlen).
        apply sort_perm.
    + intros Hun Hdef Hconf. split; [reflexivity|].
      rewrite (Hunreach Hun), Hdef. simpl.
      rewrite elements_insert_eq by (rewrite length_insert; exact Hlen).
      by rewrite Hconf.
Qed.

End Initialization.

Lemma init_updates_scopes_witness :
  (exists this',
     fst (Provider.init Example.online (Example.provider None 0 1)
            (Example.world [["openid"]; ["read"; "write"]])) = Effect.Ok this' /\
     Provider.scopes (Provider.config this') <> 0 /\
     Provider.elements
       (Provider.heap
          (snd (Provider.init Example.online (Example.provider None 0 1)
                  (Example.world [["openid"]; ["read"; "write"]]))))
       (Provider.scopes (Provider.config this'))
     ≡ₚ ["profile"; "email"]) /\
  (exists this',
     fst (Provider.init Example.offline (Example.provider None 0 1)
            (Example.world [["read"; "write"]; ["read"; "write"]])) = Effect.Ok this' /\
     this' = Example.provider None 0 1 /\
     Provider.elements
       (Provider.heap
          (snd (Provider.init Example.offline (Example.provider None 0 1)
                  (Example.world [["read"; "write"]; ["read"; "write"]]))))
       (Provider.scopes (Provider.config this'))
     = ["read"; "write"]).
Proof.
  split.
  - destruct (init_updates_scopes Example.online (Example.provider None 0 1)
                (Example.world [["openid"]; ["read"; "write"]]))
      as (this' & Hok & Hiff & Hupdated & _).
    + simpl. lia.
    + simpl. lia.
    + assert (Hnew : Provider.scopes (Provider.config this') <> 0).
      { apply Hiff. split; [discriminate|].
        intros Hperm. apply Permutation_length in Hperm. discriminate. }
      exists this'. split; [exact Hok|]. split; [exact Hnew|].
      apply Hupdated. exact Hnew.
  - destruct (init_updates_scopes Example.offline (Example.provider None 0 1)
                (Example.world [["read"; "write"]; ["read"; "write"]]))
      as (this' & Hok & _ & _ & _ & Hscenario).
    + simpl. lia.
    + simpl. lia.
    + assert (Hoffline : Spec.unreachable Example.offline).
      { split; intros url; eexists; reflexivity. }
      destruct (Hscenario Hoffline eq_refl eq_refl) as [Hthis Hafter].
      exists this'. split; [exact Hok|]. split; [exact Hthis|exact Hafter].
Defined.

(** C9 as stated fails: with empty default scopes and no endpoint
    reachable, the discovered scopes are empty and differ from the
    configured ones, yet [init] keeps the configured scopes. *)
Lemma init_empty_discovery_counterexample :
  Spec.resolved_scopes Example.offline (Example.server_config None 0 1) [] = [] /\
  ~ ([] ≡ₚ ["read"]) /\
  fst (Provider.init Example.offline (Example.provider None 0 1)
         (Example.world [["read"]; []]))
  = Effect.Ok (Example.provider None 0 1) /\
  Provider.elements
    (Provider.heap
       (snd (Provider.init Example.offline (Example.provider None 0 1)
               (Example.world [["read"]; []])))) 0
  = ["read"].
Proof.
  split; [reflexivity|]. split; [|split; reflexivity].
  intros Hperm. apply Permutation_length in Hperm. discriminate.
Qed.

(** * More on the Supabase URL helpers *)

Section ProjectReferences.
Import Url Extractor.

Lemma strip_prefix_spec (p s r : string) : strip_prefix p s = Some r <-> s = p +:+ r.
Proof.
  revert s. induction p as [|a p IH]; intros s.
  - simpl. split; [by intros [= ->]|by intros ->].
  - destruct s as [|b s]; simpl.
    + split; [discriminate|]. rewrite append_cons. discriminate.
    + destruct (Ascii.eqb_spec a b) as [->|Hne].
      * rewrite IH, append_cons. split; [by intros ->|by intros [= ->]].
      * split; [discriminate|]. rewrite append_cons. intros [= H _]. congruence.
Qed.

Lemma take_while_spec (s : string) :
  exists rest, s = take_while is_ref_char s +:+ rest /\
               Spec.is_project_ref (take_while is_ref_char s) /\ Spec.ref_ends rest.
Proof.
  induction s as [|c s (rest & Hs & Hall & Hend)]; simpl.
  - exists "". repeat split. constructor.
  - destruct (is_ref_char c) eqn:Hc.
    + exists rest. rewrite append_cons. split; [by f_equal|]. split; [|exact Hend].
      constructor; [by apply is_ref_char_spec|exact Hall].
    + exists (String c s). split; [reflexivity|]. split; [constructor|].
      simpl. rewrite <- is_ref_char_spec. congruence.
Qed.

Lemma take_while_app (ref rest : string) :
  Spec.is_project_ref ref -> Spec.ref_ends rest ->
  take_while is_ref_char (ref +:+ rest) = ref.
Proof.
  intros Hall Hend. induction ref as [|c ref IH].
  - destruct rest as [|c rest]; [reflexivity|]. simpl in *.
    destruct (is_ref_char c) eqn:Hc; [|reflexivity].
    by apply is_ref_char_spec in Hc.
  - inversion Hall as [|? ? Hc Hrest]; subst. rewrite append_cons. simpl.
    apply is_ref_char_spec in Hc. rewrite Hc. f_equal. by apply IH.
Qed.

Lemma project_ref_at_spec (s g : string) :
  project_ref_at s = Some g <->
  g <> "" /\ exists rest, s = Spec.project_prefix +:+ g +:+ rest /\
                          Spec.is_project_ref g /\ Spec.ref_ends rest.
Proof.
  unfold project_ref_at. fold Spec.project_prefix. split.
  - destruct (strip_prefix Spec.project_prefix s) as [tail|] eqn:Hs; [|discriminate].
    apply strip_prefix_spec in Hs.
    destruct (take_while_spec tail) as (rest & Htail & Hall & Hend).
    destruct (String.eqb_spec (take_while is_ref_char tail) ""); [discriminate|].
    intros [= <-]. split; [assumption|]. exists rest. by rewrite <- Htail.
  - intros (Hne & rest & -> & Hall & Hend).
    rewrite (proj2 (strip_prefix_spec _ _ _) eq_refl), take_while_app by assumption.
    by destruct (String.eqb_spec g "").
Qed.

Lemma regexp_match_some {A} (f : string -> option A) (s : string) (m : A) :
  regexp_match f s = Some m -> exists a b, s = a +:+ b /\ f b = Some m.
Proof.
  induction s as [|c s IH].
  - simpl. destruct (f "") eqn:H; [|discriminate]. intros [= <-]. by exists "", "".
  - rewrite regexp_match_cons. destruct (f (String c s)) eqn:H.
    + intros [= <-]. by exists "", (String c s).
    + intros Hm. destruct (IH Hm) as (a & b & -> & Hb).
      exists (String c a), b. by rewrite append_cons.
Qed.

Lemma regexp_match_none {A} (f : string -> option A) (s : string) :
  regexp_match f s = None <-> forall a b, s = a +:+ b -> f b = None.
Proof.
  induction s as [|c s IH].
  - simpl. split.
    + intros H a b Hab. destruct a; [|discriminate].
      change ("" +:+ b) with b in Hab. subst b. by destruct (f "").
    + intros H. by rewrite (H "" "" eq_refl).
  - rewrite regexp_match_cons. split.
    + intros H a b Hab. destruct (f (String c s)) eqn:Hf; [discriminate|].
      destruct a as [|d a].
      * change ("" +:+ b) with b in Hab. by subst b.
      * rewrite append_cons in Hab. injection Hab as -> Hs.
        by apply (proj1 IH H a b).
    + intros H. rewrite (H "" (String c s) eq_refl). apply IH.
      intros a b Hab. apply (H (String c a) b). rewrite append_cons. by f_equal.
Qed.

(** What a match is: a non-empty reference, found in the URL right after
    the prefix, and as long as it can be. *)
Lemma extract_some (url r : string) :
  extractProjectRefFromUrl url = Some r ->
  r <> "" /\ Spec.is_project_ref r /\
  exists a rest, url = a +:+ Spec.project_prefix +:+ r +:+ rest /\ Spec.ref_ends rest.
Proof.
  unfold extractProjectRefFromUrl. intros H.
  destruct (regexp_match_some _ _ _ H) as (a & b & -> & Hb).
  apply project_ref_at_spec in Hb as (Hne & rest & -> & Hall & Hend).
  split; [exact Hne|]. split; [exact Hall|]. by exists a, rest.
Qed.

(** X2.  [extractProjectRefFromUrl] returns [null] exactly when the URL
    has no occurrence of [supabase.com/dashboard/project/] that is followed
    by a reference character. *)
Theorem extractProjectRefFromUrl_none_iff (url : string) :
  extractProjectRefFromUrl url = None <->
  ~ exists a c rest, url = a +:+ Spec.project_prefix +:+ String c rest /\ Spec.ref_char c.
Proof.
  unfold extractProjectRefFromUrl. rewrite regexp_match_none. split.
  - intros H (a & c & rest & -> & Hc).
    specialize (H a _ eq_refl).
    destruct (take_while_spec (String c rest)) as (rest' & Hs & Hall & Hend).
    assert (Hsome : project_ref_at
                      (Spec.project_prefix +:+ take_while is_ref_char (String c rest) +:+ rest')
                    = Some (take_while is_ref_char (String c rest))).
    { apply project_ref_at_spec. split.
      - simpl. apply is_ref_char_spec in Hc. by rewrite Hc.
      - by exists rest'. }
    rewrite <- Hs in Hsome. congruence.
  - intros H a b ->. destruct (project_ref_at b) as [g|] eqn:Hb; [|reflexivity].
    exfalso. apply H.
    apply project_ref_at_spec in Hb as (Hne & rest & -> & Hall & Hend).
    destruct g as [|c g]; [done|]. inversion Hall; subst.
    exists a, c, (g +:+ rest). by rewrite append_cons.
Qed.

Lemma roundtrip_with_rest (ref rest : string) :
  ref <> "" -> Spec.is_project_ref ref -> Spec.ref_ends rest ->
  extractProjectRefFromUrl (buildSupabaseDashboardUrl ref +:+ rest) = Some ref.
Proof.
  intros Hne Hcls Hend.
  assert (Hat : project_ref_at (Spec.project_prefix +:+ ref +:+ rest) = Some ref).
  { apply project_ref_at_spec. split; [exact Hne|]. by exists rest. }
  unfold extractProjectRefFromUrl, buildSupabaseDashboardUrl.
  rewrite append_assoc.
  change ("https://supabase.com/dashboard/project/" +:+ ref +:+ rest)
    with (String "h" (String "t" (String "t" (String "p"
           (String "s" (String ":" (String "/" (String "/"
             (Spec.project_prefix +:+ ref +:+ rest))))))))).
  do 4 (rewrite regexp_match_cons, project_ref_at_other by discriminate).
  rewrite regexp_match_cons, project_ref_at_scheme.
  do 3 (rewrite regexp_match_cons, project_ref_at_other by discriminate).
  by apply regexp_match_here.
Qed.

(** X1.  A reference that [extractProjectRefFromUrl] returns is not empty,
    consists of characters of [[a-zA-Z0-9-_]] only, stands in the URL right
    after [supabase.com/dashboard/project/], and is followed there by the
    end of the URL or by a character outside the class. *)
Theorem extractProjectRefFromUrl_sound (url r : string) :
  extractProjectRefFromUrl url = Some r ->
  r <> "" /\ Spec.is_project_ref r /\
  exists a rest, url = a +:+ Spec.project_prefix +:+ r +:+ rest /\ Spec.ref_ends rest.
Proof. apply extract_some. Qed.

(** X3.  The round trip survives a tail: a dashboard URL built for a
    reference and continued by anything that does not start with a
    reference character, such as [/settings/api], still yields the
    reference. *)
Theorem extract_build_with_tail (ref rest : string) :
  ref <> "" -> Spec.is_project_ref ref -> Spec.ref_ends rest ->
  extractProjectRefFromUrl (buildSupabaseDashboardUrl ref +:+ rest) = Some ref.
Proof. apply roundtrip_with_rest. Qed.

(** X4.  Building the dashboard URL of an extracted reference and
    extracting again gives the same reference: whatever URL a reference
    came from, [buildSupabaseDashboardUrl] is a canonical URL for it. *)
Theorem extract_build_extract (url r : string) :
  extractProjectRefFromUrl url = Some r ->
  extractProjectRefFromUrl (buildSupabaseDashboardUrl r) = Some r.
Proof.
  intros H. destruct (extract_some url r H) as (Hne & Hall & _).
  rewrite <- (append_empty_r (buildSupabaseDashboardUrl r)).
  by apply roundtrip_with_rest.
Qed.

(** X5.  Every URL that [buildSupabaseDashboardUrl] builds, and every URL
    from which [extractProjectRefFromUrl] extracts a reference, is a
    dashboard page for [isSupabaseDashboardPage]. *)
Theorem dashboard_page_of_project (url r ref : string) :
  isSupabaseDashboardPage (buildSupabaseDashboardUrl ref) = true /\
  (extractProjectRefFromUrl url = Some r -> isSupabaseDashboardPage url = true).
Proof.
  unfold isSupabaseDashboardPage. split.
  - apply orb_true_iff. left. apply includes_spec.
    exists "https://", ("/project/" +:+ ref). reflexivity.
  - intros H. destruct (extract_some url r H) as (_ & _ & a & rest & -> & _).
    apply orb_true_iff. left. apply includes_spec.
    exists a, ("/project/" +:+ r +:+ rest). reflexivity.
Qed.

End ProjectReferences.

Lemma extractProjectRefFromUrl_sound_witness :
  "abc123" <> "" /\ Spec.is_project_ref "abc123" /\
  exists a rest,
    "https://app.supabase.com/dashboard/project/abc123/settings/api"
    = a +:+ Spec.project_prefix +:+ "abc123" +:+ rest /\ Spec.ref_ends rest.
Proof.
  apply (extractProjectRefFromUrl_sound
           "https://app.supabase.com/dashboard/project/abc123/settings/api").
  reflexivity.
Defined.

Lemma extractProjectRefFromUrl_none_iff_witness :
  ~ exists a c rest,
      "https://supabase.com/dashboard/project/" = a +:+ Spec.project_prefix +:+ String c rest /\
      Spec.ref_char c.
Proof.
  apply (extractProjectRefFromUrl_none_iff "https://supabase.com/dashboard/project/").
  reflexivity.
Defined.

Lemma extract_build_with_tail_witness :
  Extractor.extractProjectRefFromUrl
    (Extractor.buildSupabaseDashboardUrl "my_project-7" +:+ "/settings/api")
  = Some "my_project-7".
Proof.
  apply (extract_build_with_tail "my_project-7" "/settings/api").
  - discriminate.
  - unfold Spec.is_project_ref, Spec.ref_char. simpl.
    repeat (constructor; [vm_compute; lia|]). constructor.
  - unfold Spec.ref_ends, Spec.ref_char. vm_compute. lia.
Defined.

Lemma extract_build_extract_witness :
  Extractor.extractProjectRefFromUrl (Extractor.buildSupabaseDashboardUrl "abc123")
  = Some "abc123".
Proof.
  apply (extract_build_extract
           "https://evil.example/?next=supabase.com/dashboard/project/abc123#x").
  reflexivity.
Defined.

Lemma dashboard_page_of_project_witness :
  Extractor.isSupabaseDashboardPage
    "https://evil.example/?next=supabase.com/dashboard/project/abc123#x" = true.
Proof.
  apply (dashboard_page_of_project
           "https://evil.example/?next=supabase.com/dashboard/project/abc123#x"
           "abc123" "").
  reflexivity.
Defined.

(** * More on the navigation guard *)

Section LabelBoundary.
Import Url Browser.
Context {P : Parser}.

Lemma append_cancel_r (a b s : string) : a +:+ s = b +:+ s -> a = b.
Proof.
  revert b. induction a as [|c a IH]; intros [|d b] H; try reflexivity.
  - apply (f_equal String.length) in H. rewrite !length_append in H. simpl in H. lia.
  - apply (f_equal String.length) in H. rewrite !length_append in H. simpl in H. lia.
  - rewrite !append_cons in H. injection H as -> H. f_equal. by apply IH.
Qed.

Lemma append_last_char (a b : string) (c d : ascii) :
  a +:+ String c "" = b +:+ String d "" -> c = d.
Proof.
  revert b. induction a as [|x a IH]; intros [|y b] H.
  - by injection H.
  - rewrite append_cons in H. injection H as _ H. destruct b; discriminate.
  - rewrite append_cons in H. injection H as _ H. destruct a; discriminate.
  - rewrite !append_cons in H. injection H as _ H. by apply IH in H.
Qed.

Lemma com_is_not_io (a b : string) : a +:+ "supabase.com" <> b +:+ "supabase.io".
Proof.
  intros H.
  change (a +:+ "supabase.com") with (a +:+ "supabase.co" +:+ "m") in H.
  change (b +:+ "supabase.io") with (b +:+ "supabase.i" +:+ "o") in H.
  rewrite <- !append_assoc in H. apply append_last_char in H. discriminate.
Qed.

(** X6.  The suffix test respects the boundary of a label.  A host made of
    a non-empty text followed by [supabase.com] or [supabase.io] is allowed
    exactly when that text is a non-empty prefix followed by a dot: proper
    subdomains pass, and look-alike hosts such as [evilsupabase.com] or
    [.supabase.com] do not. *)
Theorem navigationRules_label_boundary (url : string) (u : URL) (p : string) :
  URL_new url None = Some u -> p <> "" ->
  hostname u = p +:+ "supabase.com" \/ hostname u = p +:+ "supabase.io" ->
  (navigationRules url = true <-> exists q, q <> "" /\ p = q +:+ ".").
Proof.
  intros Hu Hp Hhost. rewrite navigationRules_true_iff.
  unfold Spec.allowed_exact, Spec.allowed_suffix. split.
  - intros (u' & Hu' & Hallowed). assert (u' = u) as -> by congruence.
    destruct Hhost as [Hh|Hh]; rewrite Hh in Hallowed.
    + destruct Hallowed as [[He|[He|He]]|(q & Hq & [Hs|Hs])].
      * apply (append_cancel_r p "" "supabase.com") in He. contradiction.
      * apply (append_cancel_r p "app." "supabase.com") in He. by exists "app".
      * by apply (com_is_not_io p "") in He.
      * change (q +:+ ".supabase.com") with (q +:+ "." +:+ "supabase.com") in Hs.
        rewrite <- append_assoc in Hs. apply append_cancel_r in Hs. by exists q.
      * change (q +:+ ".supabase.io") with (q +:+ "." +:+ "supabase.io") in Hs.
        rewrite <- append_assoc in Hs. by apply com_is_not_io in Hs.
    + destruct Hallowed as [[He|[He|He]]|(q & Hq & [Hs|Hs])].
      * symmetry in He. by apply (com_is_not_io "" p) in He.
      * symmetry in He. by apply (com_is_not_io "app." p) in He.
      * apply (append_cancel_r p "" "supabase.io") in He. contradiction.
      * change (q +:+ ".supabase.com") with (q +:+ "." +:+ "supabase.com") in Hs.
        rewrite <- append_assoc in Hs. symmetry in Hs. by apply com_is_not_io in Hs.
      * change (q +:+ ".supabase.io") with (q +:+ "." +:+ "supabase.io") in Hs.
        rewrite <- append_assoc in Hs. apply append_cancel_r in Hs. by exists q.
  - intros (q & Hq & ->). exists u. split; [exact Hu|]. right. exists q.
    split; [exact Hq|]. rewrite !append_assoc in Hhost. exact Hhost.
Qed.

End LabelBoundary.

Lemma navigationRules_label_boundary_witness :
  (@Browser.navigationRules Url.reference "https://evilsupabase.com/login" = true <->
   exists q, q <> "" /\ "evil" = q +:+ ".") /\
  (@Browser.navigationRules Url.reference "https://db.eu.supabase.io/" = true <->
   exists q, q <> "" /\ "db.eu." = q +:+ ".").
Proof.
  split.
  - apply (@navigationRules_label_boundary Url.reference
             "https://evilsupabase.com/login"
             (Url.mkURL "evilsupabase.com" "/login" []) "evil").
    + reflexivity.
    + discriminate.
    + left. reflexivity.
  - apply (@navigationRules_label_boundary Url.reference
             "https://db.eu.supabase.io/"
             (Url.mkURL "db.eu.supabase.io" "/" []) "db.eu.").
    + reflexivity.
    + discriminate.
    + right. reflexivity.
Defined.

(** * More on the browser extraction engine *)

Section ScriptsEvaluated.
Import Url Effect Value Extractor Browser.
Context {P : Parser}.

(** X7.  [extractTokens] evaluates no script, the verification script
    alone, or the verification script and then the storage probe, and
    nothing else.  It evaluates something exactly on a page that is
    classified authenticated and not login.  The storage probe follows
    exactly when the verification script returned a value other than
    [null] and [undefined]: also when that value reports a failure, and
    never when the verification script could not be evaluated. *)
Theorem extractTokens_scripts (wc : WebContents) (evaluated : list string) :
  exists ran,
    snd (extractTokens wc evaluated) = (evaluated ++ ran)%list /\
    (ran = [] \/ ran = [Spec.verification_script wc] \/
     ran = [Spec.verification_script wc; tokenScript]) /\
    (ran <> [] <->
     isSupabaseLoginPage (getURL wc) = false /\
     isSupabaseAuthenticatedPage (getURL wc) = true) /\
    (ran = [Spec.verification_script wc; tokenScript] <->
     isSupabaseLoginPage (getURL wc) = false /\
     isSupabaseAuthenticatedPage (getURL wc) = true /\
     exists result, Spec.verification wc = Ok result /\
                    result <> JNull /\ result <> JUndefined).
Proof.
  unfold extractTokens, Spec.verification, Spec.verification_script.
  destruct (isSupabaseLoginPage (getURL wc)).
  { exists []. simpl. rewrite app_nil_r. split; [done|]. split; [by left|].
    split; split; try done; by intros [? _]. }
  destruct (isSupabaseAuthenticatedPage (getURL wc)).
  2:{ exists []. simpl. rewrite app_nil_r. split; [done|]. split; [by left|].
      split; split; try done; by intros [_ [? _]] || by intros [_ ?]. }
  simpl. unfold try_catch, bind, evaluate, await, ret.
  set (vs := buildSupabaseTokenExtractionScript _).
  destruct (executeJavaScript wc vs) as [result|e].
  2:{ exists [vs]. simpl. split; [done|]. split; [by right; left|].
      split; split; try done. intros (_ & _ & r & Hr & _). discriminate. }
  destruct result as [| |b|n|s|fields]; simpl.
  1,2: exists [vs]; simpl; (split; [done|]); (split; [by right; left|]);
       split; split; try done; intros (_ & _ & r & [= <-] & H1 & H2); done.
  all: destruct (executeJavaScript wc tokenScript) as [token|e]; simpl.
  all: exists [vs; tokenScript].
  all: split; [repeat case_match; simplify_eq/=; by rewrite <- app_assoc|].
  all: split; [by right; right|].
  all: split; split; try done.
  all: intros _; split; [done|]; split; [done|]; eexists; split; [reflexivity|done].
Qed.

End ScriptsEvaluated.

Lemma extractTokens_scripts_witness :
  exists ran,
    snd (@Browser.extractTokens Url.reference
           (Example.page "https://supabase.com/dashboard/project/abc123"
              (Effect.Ok Example.failure_report)
              (Effect.Ok (Value.JString "sbp_0123"))) [])
    = ([] ++ ran)%list /\
    ran = [Extractor.SUPABASE_TOKEN_EXTRACTION_SCRIPT; Browser.tokenScript].
Proof.
  destruct (@extractTokens_scripts Url.reference
              (Example.page "https://supabase.com/dashboard/project/abc123"
                 (Effect.Ok Example.failure_report)
                 (Effect.Ok (Value.JString "sbp_0123"))) [])
    as (ran & Hran & _ & _ & Hboth).
  exists ran. split; [exact Hran|].
  apply Hboth. split; [reflexivity|]. split; [reflexivity|].
  exists Example.failure_report. repeat split; discriminate.
Defined.

(** * More on the callback listener *)

Section ListenerRuns.
Import Url Effect Provider.
Context {P : Parser}.

Lemma promise_on_request_congr (req : option string) (st1 st2 : Listener) :
  promise st1 = promise st2 ->
  promise (on_request req st1) = promise (on_request req st2).
Proof.
  intros H. unfold on_request. destruct (is_callback req); [|exact H].
  repeat case_match; rewrite ?promise_resolve, ?promise_reject; simpl; by rewrite H.
Qed.

Lemma promise_deliver_congr (a : arrival) (st1 st2 : Listener) :
  promise st1 = promise st2 -> promise (deliver a st1) = promise (deliver a st2).
Proof.
  intros H. destruct a as [req|e]; simpl.
  - by apply promise_on_request_congr.
  - unfold on_error. rewrite !promise_reject. by rewrite H.
Qed.

Lemma deliver_settles (a : arrival) (st : Listener) :
  Spec.settles a = true -> promise (deliver a st) <> Pending.
Proof.
  destruct a as [req|e]; simpl; intros H.
  - by apply on_request_callback_settles.
  - unfold on_error. rewrite promise_reject. by destruct (promise st).
Qed.

Lemma deliver_quiet (a : arrival) (st : Listener) :
  Spec.settles a = false -> promise (deliver a st) = promise st.
Proof.
  destruct a as [req|e]; simpl; [|discriminate]. intros H.
  unfold on_request. by rewrite H.
Qed.

Lemma event_loop_first_settling (pre post : list (N * arrival)) (t : N)
  (a : arrival) (st : Listener) :
  promise st = Pending ->
  (forall t' a', In (t', a') pre -> (t' < TIMEOUT_MS)%N /\ Spec.settles a' = false) ->
  (t < TIMEOUT_MS)%N -> Spec.settles a = true ->
  promise (event_loop true (pre ++ (t, a) :: post) st) = promise (deliver a st).
Proof.
  intros Hst Hpre Ht Ha. revert st Hst.
  induction pre as [|[t' a'] pre IH]; intros st Hst; simpl.
  - destruct (N.leb_spec TIMEOUT_MS t) as [|_]; [lia|]. simpl.
    apply event_loop_settled. by apply deliver_settles.
  - destruct (Hpre t' a' (or_introl eq_refl)) as [Ht' Ha'].
    destruct (N.leb_spec TIMEOUT_MS t') as [|_]; [lia|]. simpl.
    rewrite IH.
    + apply promise_deliver_congr. by apply deliver_quiet.
    + intros t'' a'' Hin. apply Hpre. by right.
    + by rewrite deliver_quiet.
Qed.

(** X8.  The first arrival that can settle the flow decides it.  When only
    requests that are not callback requests come before it, and it comes
    before the timer fires, the outcome of the whole run is the outcome of
    that callback request or server error on its own, whatever arrives
    afterwards. *)
Theorem first_settling_arrival_wins (pre post : list (N * arrival)) (t : N)
  (a : arrival) (st : Listener) :
  promise st = Pending ->
  (forall t' a', In (t', a') pre -> (t' < TIMEOUT_MS)%N /\ Spec.settles a' = false) ->
  (t < TIMEOUT_MS)%N -> Spec.settles a = true ->
  promise (event_loop true (pre ++ (t, a) :: post) st) = promise (deliver a st).
Proof. apply event_loop_first_settling. Qed.

Lemma listening_resolve (c : string) (st : Listener) : listening (resolve c st) = listening st.
Proof. unfold resolve. by destruct (promise st). Qed.
Lemma listening_reject (e : Error) (st : Listener) : listening (reject e st) = listening st.
Proof. unfold reject. by destruct (promise st). Qed.

Lemma listening_on_request (req : option string) (st : Listener) :
  listening (on_request req st) = listening st && negb (is_callback req).
Proof.
  unfold on_request. destruct (is_callback req); simpl.
  - rewrite andb_false_r.
    repeat case_match; by rewrite ?listening_resolve, ?listening_reject.
  - by rewrite andb_true_r.
Qed.

Lemma deliver_closed (a : arrival) (st : Listener) :
  listening st = false -> listening (deliver a st) = false.
Proof.
  intros H. destruct a as [req|e]; simpl.
  - by rewrite listening_on_request, H.
  - unfold on_error. by rewrite listening_reject.
Qed.

Lemma on_timeout_done (st : Listener) :
  promise (on_timeout st) <> Pending /\ listening (on_timeout st) = false.
Proof.
  unfold on_timeout. rewrite promise_reject, listening_reject. simpl.
  split; [by destruct (promise st)|reflexivity].
Qed.

Lemma event_loop_done (timer : bool) (arrivals : list (N * arrival)) (st : Listener) :
  timer = true \/ (promise st <> Pending /\ listening st = false) ->
  promise (event_loop timer arrivals st) <> Pending /\
  listening (event_loop timer arrivals st) = false.
Proof.
  revert timer st. induction arrivals as [|[t a] rest IH]; intros timer st H; simpl.
  - destruct timer; [apply on_timeout_done|]. by destruct H.
  - destruct (timer && N.leb TIMEOUT_MS t) eqn:Hfire.
    + apply IH. right. destruct (on_timeout_done st) as [H1 H2]. split.
      * rewrite deliver_settled by exact H1. exact H1.
      * by apply deliver_closed.
    + rewrite andb_true_r. apply IH. destruct timer; [by left|].
      right. destruct H as [|[H1 H2]]; [done|]. split.
      * by rewrite deliver_settled.
      * by apply deliver_closed.
Qed.

(** X9.  The promise of [startCallbackServer] never stays pending and the
    server never stays open: once the timer of five minutes has had its
    turn, whatever requests and server errors arrived, the promise is
    settled and the server is closed.  The timer is never cancelled, so
    this also holds of a listener that only a server error had rejected,
    which leaves the server listening until then. *)
Theorem listener_always_settles (arrivals : list (N * arrival)) (st : Listener) :
  promise (event_loop true arrivals st) <> Pending /\
  listening (event_loop true arrivals st) = false.
Proof. apply event_loop_done. by left. Qed.

Lemma responses_deliver (a : arrival) (st : Listener) :
  length (responses (deliver a st)) =
  length (responses st) + match a with Request _ => 1 | ServerError _ => 0 end.
Proof.
  destruct a as [req|e]; simpl.
  - rewrite on_request_responses, length_app. f_equal.
    destruct (first_answer req) as [[_ ->]|[_ (s & b & -> & _)]]; reflexivity.
  - unfold on_error. rewrite responses_reject. lia.
Qed.

(** X10.  Every request is answered exactly once: a run adds as many
    responses as requests arrived; server errors and the timer add none. *)
Theorem one_response_per_request (timer : bool) (arrivals : list (N * arrival))
  (st : Listener) :
  length (responses (event_loop timer arrivals st)) =
  length (responses st) + Spec.requests arrivals.
Proof.
  revert timer st. induction arrivals as [|[t a] rest IH]; intros timer st; simpl.
  - destruct timer; [|lia]. unfold on_timeout. rewrite responses_reject. simpl. lia.
  - rewrite IH, responses_deliver.
    assert (Hsame : length (responses (if timer && N.leb TIMEOUT_MS t
                                       then on_timeout st else st))
                    = length (responses st)).
    { destruct (timer && N.leb TIMEOUT_MS t); [|reflexivity].
      unfold on_timeout. by rewrite responses_reject. }
    rewrite Hsame. destruct a; lia.
Qed.

End ListenerRuns.

Lemma first_settling_arrival_wins_witness :
  Provider.promise
    (@Provider.event_loop Url.reference true Example.visit Provider.startCallbackServer)
  = Provider.Fulfilled "abc123".
Proof.
  apply (@first_settling_arrival_wins Url.reference
           [(100%N, Provider.Request (Some "/favicon.ico"))]
           [(2500%N, Provider.Request (Some "/oauth/callback?code=zzz"))]
           2000%N (Provider.Request (Some "/oauth/callback?code=abc123"))
           Provider.startCallbackServer).
  - reflexivity.
  - intros t a [[= <- <-]|[]]. split; reflexivity.
  - reflexivity.
  - reflexivity.
Defined.

(** * The authorization redirect *)

Section AuthorizationRedirect.
Import Url Effect Provider.
Context {P : Parser}.

Lemma on_request_code (req : option string) (url : URL) (c : string) (st : Listener) :
  promise st = Pending ->
  is_callback req = true ->
  URL_new (default "" req) Spec.callback_base = Some url ->
  ~ Spec.present (searchParams_get (searchParams url) "error") ->
  searchParams_get (searchParams url) "code" = Some c -> c <> "" ->
  promise (on_request req st) = Fulfilled c.
Proof.
  intros Hst Hcb Hurl Herr Hc Hne. apply truthy_opt_absent in Herr.
  assert (Ht : JS.truthy_opt (searchParams_get (searchParams url) "code") = true).
  { apply truthy_opt_present. by exists c. }
  unfold on_request. unfold Spec.callback_base in Hurl.
  rewrite Hcb, Hurl, Herr, Ht, Hc. simpl.
  rewrite promise_resolve. simpl. by rewrite Hst.
Qed.

(** X11.  [redirectToAuthorization], once the browser is spawned, always
    comes to an end; when it returns, the provider holds an authorization
    code and is otherwise unchanged.  The first arrival that can settle the
    flow decides: a server error is thrown as it is, and a callback request
    with a code and no error stores that code, whatever arrives later.
    When nothing but other requests arrives before the timer fires, the
    method throws the timeout error.  An error thrown by [spawn] is thrown
    by the method. *)
Theorem redirectToAuthorization_outcome (process_platform : platform)
  (arrivals : list (N * arrival)) (this : McpOAuthProvider) (authUrl : string) :
  let outcome :=
    snd (redirectToAuthorization process_platform (Ok tt) arrivals this authUrl) in
  outcome <> None /\
  (forall this', outcome = Some (Ok this') ->
     exists code, this' = with_authorizationCode this code) /\
  (forall pre t a post,
     arrivals = (pre ++ (t, a) :: post)%list ->
     (forall t' a', In (t', a') pre -> (t' < TIMEOUT_MS)%N /\ Spec.settles a' = false) ->
     (t < TIMEOUT_MS)%N ->
     (forall e, a = ServerError e -> outcome = Some (Throw e)) /\
     (forall req url c,
        a = Request req -> is_callback req = true ->
        URL_new (default "" req) Spec.callback_base = Some url ->
        ~ Spec.present (searchParams_get (searchParams url) "error") ->
        searchParams_get (searchParams url) "code" = Some c -> c <> "" ->
        outcome = Some (Ok (with_authorizationCode this c)))) /\
  ((forall t a, In (t, a) arrivals -> (t < TIMEOUT_MS)%N -> Spec.settles a = false) ->
   outcome = Some (Throw Spec.timed_out)) /\
  (forall e,
     snd (redirectToAuthorization process_platform (Throw e) arrivals this authUrl)
     = Some (Throw e)).
Proof.
  intros outcome. subst outcome. unfold redirectToAuthorization. simpl.
  split; [|split; [|split; [|split]]].
  - destruct (event_loop_done true arrivals startCallbackServer (or_introl eq_refl))
      as [Hsettled _].
    by destruct (promise (event_loop true arrivals startCallbackServer)).
  - intros this' H.
    destruct (promise (event_loop true arrivals startCallbackServer)) as [|code|e];
      simplify_eq/=. by exists code.
  - intros pre t a post -> Hpre Ht. split.
    + intros e ->.
      rewrite (event_loop_first_settling pre post t (ServerError e)
                 startCallbackServer eq_refl Hpre Ht eq_refl).
      reflexivity.
    + intros req url c -> Hcb Hurl Herr Hc Hne.
      rewrite (event_loop_first_settling pre post t (Request req)
                 startCallbackServer eq_refl Hpre Ht Hcb).
      simpl. by rewrite (on_request_code req url c).
  - intros Hquiet. rewrite event_loop_times_out; [reflexivity|reflexivity|].
    intros t a Hin Ht. specialize (Hquiet t a Hin Ht).
    destruct a as [req|e]; [|discriminate]. by exists req.
  - reflexivity.
Qed.

End AuthorizationRedirect.

Lemma redirectToAuthorization_outcome_witness :
  snd (@Provider.redirectToAuthorization Url.reference (Provider.other "linux")
         (Effect.Ok tt) Example.visit Example.session
         "https://auth.example.com/authorize?client_id=c1")
  = Some (Effect.Ok (Provider.with_authorizationCode Example.session "abc123")) /\
  snd (@Provider.redirectToAuthorization Url.reference Provider.darwin
         (Effect.Ok tt) [(100%N, Provider.Request (Some "/favicon.ico"))]
         Example.session "https://auth.example.com/authorize?client_id=c1")
  = Some (Effect.Throw Spec.timed_out).
Proof.
  split.
  - destruct (@redirectToAuthorization_outcome Url.reference (Provider.other "linux")
                Example.visit Example.session
                "https://auth.example.com/authorize?client_id=c1")
      as (_ & _ & Hfirst & _).
    destruct (Hfirst [(100%N, Provider.Request (Some "/favicon.ico"))] 2000%N
                (Provider.Request (Some "/oauth/callback?code=abc123"))
                [(2500%N, Provider.Request (Some "/oauth/callback?code=zzz"))])
      as [_ Hcode].
    + reflexivity.
    + intros t a [[= <- <-]|[]]. split; reflexivity.
    + reflexivity.
    + apply (Hcode (Some "/oauth/callback?code=abc123")
               (Url.mkURL "localhost" "/oauth/callback" [("code", "abc123")]) "abc123");
        try reflexivity.
      * intros [e [He _]]. discriminate.
      * discriminate.
  - destruct (@redirectToAuthorization_outcome Url.reference Provider.darwin
                [(100%N, Provider.Request (Some "/favicon.ico"))] Example.session
                "https://auth.example.com/authorize?client_id=c1")
      as (_ & _ & _ & Htimer & _).
    apply Htimer. intros t a [[= <- <-]|[]] _. reflexivity.
Defined.

(** * More on the provider's methods *)

Section ProviderMethods.
Import Url Effect Provider.

Lemma codeVerifier_world (this : McpOAuthProvider) (w : World) :
  snd (codeVerifier this w) = w.
Proof.
  unfold codeVerifier, bind, get, throw, ret. simpl.
  by destruct (negb (JS.truthy_opt (codeVerifierStore w !! serverId this))).
Qed.

(** X12.  The verifier store is keyed by [serverId] and by nothing else.
    Saving through one provider object is seen by every provider object
    with the same [serverId] and by no other; [clear] removes the verifier
    of its own [serverId] only; and reading a verifier does not consume
    it. *)
Theorem verifier_keyed_by_serverId (env : Env) (this other : McpOAuthProvider)
  (v : string) (w : World) :
  fst (codeVerifier this (snd (saveCodeVerifier other v w))) =
    (if decide (serverId other = serverId this)
     then (if decide (v = "") then Throw missing_verifier else Ok v)
     else fst (codeVerifier this w)) /\
  fst (codeVerifier this (snd (clear env other w))) =
    (if decide (serverId other = serverId this)
     then Throw missing_verifier
     else fst (codeVerifier this w)) /\
  fst (codeVerifier this (snd (codeVerifier other w))) = fst (codeVerifier this w).
Proof.
  rewrite !codeVerifier_lookup. split; [|split].
  - unfold saveCodeVerifier, modify, set_store. simpl.
    case_decide as Hid.
    + by rewrite Hid, lookup_insert_eq.
    + by rewrite lookup_insert_ne.
  - destruct (clear_run env other w) as [_ ->].
    case_decide as Hid.
    + by rewrite Hid, lookup_delete_eq.
    + by rewrite lookup_delete_ne.
  - by rewrite codeVerifier_world.
Qed.

(** X18.  [saveClientInformation] makes one update call, which sets
    [oauthClientInfo] for the provider's [serverId].  When the update
    fails the method logs the failure and throws the same error; it returns
    normally only when the update succeeded.  It leaves the verifier store
    and the arrays alone. *)
Theorem saveClientInformation_propagates (env : Env) (this : McpOAuthProvider)
  (clientInfo : OAuthClientInformation) (w : World) :
  let fields := [("oauthClientInfo", VClientInfo clientInfo)] in
  let out := saveClientInformation env this clientInfo w in
  fst out = match McpServerModel_update env (serverId this) fields with
            | Ok _ => Ok tt
            | Throw e => Throw e
            end /\
  (forall e, McpServerModel_update env (serverId this) fields = Throw e ->
     last (trace (snd out)) = Some (Log Err "Failed to save client information to database:")) /\
  (exists before after,
     trace (snd out) = (trace w ++ before ++ CallUpdate (serverId this) fields :: after)%list /\
     (forall e, In e (before ++ after)%list -> exists lv msg, e = Log lv msg)) /\
  codeVerifierStore (snd out) = codeVerifierStore w /\
  heap (snd out) = heap w.
Proof.
  intros fields out. subst out.
  unfold saveClientInformation, call_update, try_catch, bind, log, emit, modify,
    await, throw, ret. simpl. fold fields.
  destruct (McpServerModel_update env (serverId this) fields) as [n|e]; simpl.
  - split; [reflexivity|]. split; [discriminate|]. split; [|done].
    eexists [_; _], [_]. split; [by rewrite <- !app_assoc|].
    intros e [<-|[<-|[<-|[]]]]; eauto.
  - split; [reflexivity|]. split.
    + intros _ _. by rewrite last_snoc.
    + split; [|done].
      eexists [_; _], [_]. split; [by rewrite <- !app_assoc|].
      intros e' [<-|[<-|[<-|[]]]]; eauto.
Qed.

(** X19.  [tokens] never throws.  It returns [undefined] exactly when the
    lookup fails or hands out no token record.  A record it returns has the
    stored access token and a non-empty token type, the stored one or
    [Bearer] when none is stored; a refresh token, lifetime or scope it
    carries is the stored one and is not empty or zero. *)
Theorem tokens_normalised
  (getById : string -> result (option (list (option StoredTokens))))
  (this : McpOAuthProvider) (w : World) :
  exists r,
    fst (tokens getById this w) = Ok r /\
    (r = None <-> Spec.stored_tokens (getById (serverId this)) = None) /\
    (forall t, r = Some t ->
       exists stored,
         Spec.stored_tokens (getById (serverId this)) = Some stored /\
         access_token t = stored_access_token stored /\
         token_type t <> "" /\
         (forall ty, stored_token_type stored = Some ty -> ty <> "" -> token_type t = ty) /\
         (~ Spec.present (stored_token_type stored) -> token_type t = "Bearer") /\
         (forall x, refresh_token t = Some x ->
                    x <> "" /\ stored_refresh_token stored = Some x) /\
         (forall n, expires_in t = Some n ->
                    n <> 0%N /\ stored_expires_in stored = Some n) /\
         (forall x, scope t = Some x -> x <> "" /\ stored_scope stored = Some x)).
Proof.
  unfold tokens, try_catch, bind, emit, modify, await, log, ret, Spec.stored_tokens. simpl.
  destruct (getById (serverId this)) as [[[|[stored|] rows]|]|e]; simpl;
    try (exists None; split; [reflexivity|]; split; [done|discriminate]).
  eexists. split; [reflexivity|]. split; [done|].
  intros t [= <-]. exists stored. simpl. split; [reflexivity|]. split; [reflexivity|].
  assert (Hsecret : forall s x, secret_if_truthy s = Some x -> x <> "" /\ s = Some x).
  { intros [s|] x; unfold secret_if_truthy; simpl; [|discriminate].
    rewrite truthy_decide. case_decide; [discriminate|]. intros [= <-]. done. }
  split; [|split; [|split; [|split; [|split]]]].
  - unfold JS.or_else. destruct (stored_token_type stored) as [ty|]; [|discriminate].
    rewrite truthy_decide. case_decide; [discriminate|done].
  - intros ty -> Hty. unfold JS.or_else. rewrite truthy_decide. by case_decide.
  - intros Habs. apply truthy_opt_absent in Habs. unfold JS.or_else.
    destruct (stored_token_type stored) as [ty|]; [|reflexivity].
    simpl in Habs. by rewrite Habs.
  - apply Hsecret.
  - intros n. unfold truthy_number.
    destruct (stored_expires_in stored) as [k|]; [|discriminate].
    destruct (N.eqb_spec k 0); simpl; [discriminate|]. by intros [= <-].
  - apply Hsecret.
Qed.

(** X20.  With a static client id, the authentication method that
    [clientMetadata] announces agrees with the identity that
    [clientInformation] returns: [client_secret_post] exactly when that
    identity carries a secret, [none] exactly when it does not. *)
Theorem clientMetadata_agrees_with_static_identity (env : Env)
  (this : McpOAuthProvider) (w w' : World) (info : OAuthClientInformation) :
  Spec.static_identity (config this) <> None ->
  fst (clientInformation env this w) = Ok (Some info) ->
  exists md,
    fst (clientMetadata this w') = Ok md /\
    (ClientMetadata.token_endpoint_auth_method md = "client_secret_post" <->
     is_Some (info_client_secret info)) /\
    (ClientMetadata.token_endpoint_auth_method md = "none" <->
     info_client_secret info = None).
Proof.
  intros Hstatic Hinfo.
  destruct (clientInformation_resolves env this w) as [Hres _].
  rewrite Hres in Hinfo.
  unfold Spec.static_identity in *.
  destruct (client_id (config this)) as [id|]; [|done].
  case_decide; [done|]. injection Hinfo as <-.
  eexists. split; [reflexivity|]. simpl.
  destruct (client_secret (config this)) as [sec|]; simpl;
    [rewrite truthy_decide; case_decide; simpl|].
  all: split; split; intros Hm; first [done | by destruct Hm | by eexists].
Qed.

End ProviderMethods.

Lemma saveClientInformation_propagates_witness :
  fst (Provider.saveClientInformation Example.offline Example.session
         Example.registered Spec.initial_world)
  = Effect.Throw (Effect.mkError "database is locked") /\
  last (Provider.trace
          (snd (Provider.saveClientInformation Example.offline Example.session
                  Example.registered Spec.initial_world)))
  = Some (Provider.Log Provider.Err "Failed to save client information to database:").
Proof.
  destruct (saveClientInformation_propagates Example.offline Example.session
              Example.registered Spec.initial_world) as (Hres & Hlog & _).
  split; [exact Hres|].
  apply (Hlog (Effect.mkError "database is locked")). reflexivity.
Defined.

Lemma tokens_normalised_witness :
  exists r,
    fst (Provider.tokens Example.lookup_tokens Example.session Spec.initial_world)
    = Effect.Ok r /\
    r = Some {| Provider.access_token := "at-1";
                Provider.token_type := "Bearer";
                Provider.refresh_token := None;
                Provider.expires_in := Some 3600%N;
                Provider.scope := Some "read write" |}.
Proof.
  destruct (tokens_normalised Example.lookup_tokens Example.session Spec.initial_world)
    as (r & Hres & _ & _).
  exists r. split; [exact Hres|].
  assert (Hr : Effect.Ok r
               = fst (Provider.tokens Example.lookup_tokens Example.session
                        Spec.initial_world)) by (symmetry; exact Hres).
  by injection Hr as ->.
Defined.

Lemma clientMetadata_agrees_with_static_identity_witness :
  exists md,
    fst (Provider.clientMetadata (Example.provider (Some "static-7") 0 0)
           (Example.world [["read"; "write"]])) = Effect.Ok md /\
    Provider.ClientMetadata.token_endpoint_auth_method md = "none".
Proof.
  destruct (clientMetadata_agrees_with_static_identity Example.online
              (Example.provider (Some "static-7") 0 0) Spec.initial_world
              (Example.world [["read"; "write"]])
              {| Provider.info_client_id := "static-7";
                 Provider.info_client_secret := None |})
    as (md & Hmd & _ & Hnone).
  - discriminate.
  - reflexivity.
  - exists md. split; [exact Hmd|]. by apply Hnone.
Defined.

(** * More on scope discovery and initialization *)

Section DiscoveryEffects.
Import Url Effect Provider.

Lemma discoverScopes_effects (env : Env) (config : OAuthServerConfig) (w : World) :
  exists r extra events,
    fst (discoverScopes env config w) = Ok r /\
    heap (snd (discoverScopes env config w)) = (heap w ++ extra)%list /\
    length extra <= 2 /\
    codeVerifierStore (snd (discoverScopes env config w)) = codeVerifierStore w /\
    trace (snd (discoverScopes env config w)) = (trace w ++ events)%list /\
    List.filter Spec.is_call events = Spec.discovery_calls env config.
Proof.
  unfold Spec.discovery_calls, Spec.resource_scopes.
  unfold discoverScopes, call_discoverOAuthProtectedResourceMetadata,
    call_discoverAuthorizationServerMetadata, nonempty_scopes, received,
    try_catch, bind, log, emit, modify, await, ret, alloc, read, set_heap.
  rewrite or_else_well_known.
  destruct (supports_resource_metadata config);
    [destruct (discoverOAuthProtectedResourceMetadata env (server_url config))
       as [[[[[|x l]|]]|]|e]|];
    destruct (discoverAuthorizationServerMetadata env (Spec.well_known config))
      as [[[[[|y l']|]]|]|e'];
    simpl; rewrite ?elements_middle; simpl; rewrite ?elements_middle; simpl.
  all: eexists _, _, _.
  all: split; [reflexivity|].
  all: split;
    [first [rewrite <- ?app_assoc; reflexivity | symmetry; apply app_nil_r]|].
  all: split; [simpl; lia|].
  all: split; [reflexivity|].
  all: split; [rewrite <- ?app_assoc; reflexivity|].
  all: reflexivity.
Qed.


(** X13.  [discoverScopes] calls its collaborators as the priority chain
    needs and no more: the resource metadata once, at the server URL, when
    support is advertised; then the authorization server metadata once, at
    the configured or derived well-known URL, unless the resource metadata
    gave scopes. *)
Theorem discoverScopes_calls (env : Env) (config : OAuthServerConfig) (w : World) :
  exists events,
    trace (snd (discoverScopes env config w)) = (trace w ++ events)%list /\
    List.filter Spec.is_call events = Spec.discovery_calls env config.
Proof.
  destruct (discoverScopes_effects env config w)
    as (r & extra & events & _ & _ & _ & _ & Htrace & Hcalls).
  by exists events.
Qed.

(** X14.  [discoverScopes] changes nothing that exists: it adds at most two
    arrays, those of the metadata it received, and leaves the arrays of the
    configuration and the verifier store as they are. *)
Theorem discoverScopes_adds_only (env : Env) (config : OAuthServerConfig) (w : World) :
  exists extra,
    heap (snd (discoverScopes env config w)) = (heap w ++ extra)%list /\
    length extra <= 2 /\
    codeVerifierStore (snd (discoverScopes env config w)) = codeVerifierStore w.
Proof.
  destruct (discoverScopes_effects env config w)
    as (r & extra & events & _ & Hheap & Hlen & Hstore & _).
  by exists extra.
Qed.

Lemma init_store (env : Env) (this : McpOAuthProvider) (w : World) :
  codeVerifierStore (snd (init env this w)) = codeVerifierStore w.
Proof.
  set (w0 := {| heap := heap w; codeVerifierStore := codeVerifierStore w;
                trace := ((((trace w ++ [Log Info "Server:"]) ++ [Log Info "Server Key:"])
                  ++ [Log Info "Config:"]) ++ [Log Info "Using configured scopes:"])%list |}).
  destruct (discoverScopes_effects env (config this) w0)
    as (r & extra & events & Hres & _ & _ & Hstore & _).
  unfold init, try_catch, bind, log, emit, modify, read, array_sort, ret, set_heap.
  cbn -[JS.JSON_stringify JS.sort elements String.eqb discoverScopes].
  fold w0.
  destruct (discoverScopes env (config this) w0) as [res [h1 s1 t1]].
  simpl in Hres, Hstore. subst res s1.
  cbn -[JS.JSON_stringify JS.sort elements String.eqb].
  repeat case_match; simplify_eq/=; reflexivity.
Qed.

(** What [init] leaves in the provider's array of scopes. *)
Lemma init_scopes_after (env : Env) (this : McpOAuthProvider) (w : World) :
  scopes (config this) < length (heap w) ->
  default_scopes (config this) < length (heap w) ->
  let configured := elements (heap w) (scopes (config this)) in
  let discovered := Spec.resolved_scopes env (config this)
                      (elements (heap w) (default_scopes (config this))) in
  exists this',
    fst (init env this w) = Ok this' /\
    (this' = this \/ exists d, this' = with_scopes this d) /\
    scopes (config this') < length (heap (snd (init env this w))) /\
    length (heap w) <= length (heap (snd (init env this w))) /\
    elements (heap (snd (init env this w))) (scopes (config this')) =
      (if decide (discovered = []) then configured else JS.sort discovered) /\
    (forall r, r < length (heap w) ->
       elements (heap (snd (init env this w))) r ≡ₚ elements (heap w) r).
Proof.
  intros Hs Hd. cbv zeta.
  destruct (init_run env this w Hs Hd)
    as (d & extra & Hfresh & Hlt & Hel & Hres & Hheap).
  cbv zeta in Hel, Hres, Hheap.
  remember (Spec.resolved_scopes env (config this)
              (elements (heap w) (default_scopes (config this)))) as discovered
    eqn:Hdiscovered.
  remember (elements (heap w) (scopes (config this))) as configured eqn:Hconfigured.
  clear Hdiscovered.
  assert (Hlen : scopes (config this) < length (heap w ++ extra)%list).
  { rewrite length_app. lia. }
  assert (Hsize : length (heap (snd (init env this w))) = length (heap w ++ extra)%list).
  { rewrite Hheap. case_decide; by rewrite ?length_insert. }
  assert (Hgrow : length (heap w) <= length (heap (snd (init env this w)))).
  { rewrite Hsize, length_app. lia. }
  assert (Hperm : forall r, r < length (heap w) ->
            elements (heap (snd (init env this w))) r ≡ₚ elements (heap w) r).
  { intros r Hr. rewrite Hheap. case_decide as Hempty.
    - by rewrite elements_old.
    - destruct (decide (scopes (config this) = r)) as [<-|Hne1].
      + rewrite elements_insert_eq by (rewrite length_insert; exact Hlen).
        subst configured. apply sort_perm.
      + rewrite elements_insert_ne by exact Hne1.
        destruct (decide (d = r)) as [<-|Hne2].
        * rewrite elements_insert_eq by exact Hlt. rewrite sort_perm, <- Hel.
          by rewrite elements_old.
        * rewrite elements_insert_ne by exact Hne2. by rewrite elements_old. }
  destruct (decide (discovered <> [] /\ JS.sort discovered <> JS.sort configured))
    as [[Hne Hdiff]|Hsame].
  - assert (Hd_ne : d <> scopes (config this)).
    { intros ->. apply Hdiff. f_equal. rewrite <- Hel. subst configured.
      by apply elements_old. }
    exists (with_scopes this d). split; [exact Hres|]. split; [right; by exists d|].
    simpl scopes. split; [by rewrite Hsize|]. split; [exact Hgrow|].
    split; [|exact Hperm].
    rewrite Hheap. destruct (decide (discovered = [])) as [|_]; [done|].
    rewrite elements_insert_ne by congruence.
    by rewrite elements_insert_eq by exact Hlt.
  - exists this. split; [exact Hres|]. split; [by left|].
    split; [by rewrite Hsize|]. split; [exact Hgrow|]. split; [|exact Hperm].
    rewrite Hheap. destruct (decide (discovered = [])) as [Hempty|Hne].
    + subst configured. by apply elements_old.
    + rewrite elements_insert_eq by (rewrite length_insert; exact Hlen).
      destruct (decide (JS.sort discovered = JS.sort configured)) as [<-|Hdiff];
        [reflexivity|]. exfalso. by apply Hsame.
Qed.

(** X15.  [init] keeps the elements of every array: an array that existed
    before has the same scopes afterwards, possibly in another order.  It
    leaves the verifier store as it is. *)
Theorem init_preserves_arrays (env : Env) (this : McpOAuthProvider) (w : World) :
  scopes (config this) < length (heap w) ->
  default_scopes (config this) < length (heap w) ->
  (forall r, r < length (heap w) ->
     elements (heap (snd (init env this w))) r ≡ₚ elements (heap w) r) /\
  codeVerifierStore (snd (init env this w)) = codeVerifierStore w.
Proof.
  intros Hs Hd.
  destruct (init_scopes_after env this w Hs Hd) as (this' & _ & _ & _ & _ & _ & Hperm).
  split; [exact Hperm|apply init_store].
Qed.

(** X16.  Whenever the discovery gives scopes, be it from an endpoint or
    from the defaults, the provider's scopes after [init] are these scopes
    in ascending order, whether [init] replaced the configured scopes or
    found them equal. *)
Theorem init_scopes_sorted (env : Env) (this : McpOAuthProvider) (w : World) :
  scopes (config this) < length (heap w) ->
  default_scopes (config this) < length (heap w) ->
  Spec.resolved_scopes env (config this)
    (elements (heap w) (default_scopes (config this))) <> [] ->
  exists this',
    fst (init env this w) = Ok this' /\
    Sorted String.le (elements (heap (snd (init env this w))) (scopes (config this'))) /\
    elements (heap (snd (init env this w))) (scopes (config this'))
    ≡ₚ Spec.resolved_scopes env (config this)
         (elements (heap w) (default_scopes (config this))).
Proof.
  intros Hs Hd Hne.
  destruct (init_scopes_after env this w Hs Hd)
    as (this' & Hres & _ & _ & _ & Hafter & _).
  exists this'. split; [exact Hres|]. rewrite Hafter.
  case_decide; [done|]. split; [apply sort_sorted|apply sort_perm].
Qed.

Lemma resolved_scopes_perm (env : Env) (config : OAuthServerConfig)
  (d1 d2 : list string) :
  d1 ≡ₚ d2 ->
  Spec.resolved_scopes env config d1 ≡ₚ Spec.resolved_scopes env config d2.
Proof.
  intros H. unfold Spec.resolved_scopes. simpl.
  destruct (Spec.resource_scopes env config); [|reflexivity].
  destruct (Spec.auth_server_scopes env config); [exact H|reflexivity].
Qed.

Lemma resolved_scopes_with_scopes (env : Env) (this : McpOAuthProvider) (d : ref)
  (defaults : list string) :
  Spec.resolved_scopes env (config (with_scopes this d)) defaults
  = Spec.resolved_scopes env (config this) defaults.
Proof. reflexivity. Qed.

(** X17.  Running [init] a second time changes nothing: with the same
    answers from the discovery endpoints, the second run leaves the provider
    and its scopes as the first run left them. *)
Theorem init_idempotent (env : Env) (this : McpOAuthProvider) (w : World) :
  scopes (config this) < length (heap w) ->
  default_scopes (config this) < length (heap w) ->
  exists this1,
    fst (init env this w) = Ok this1 /\
    fst (init env this1 (snd (init env this w))) = Ok this1 /\
    elements (heap (snd (init env this1 (snd (init env this w)))))
      (scopes (config this1))
    = elements (heap (snd (init env this w))) (scopes (config this1)).
Proof.
  intros Hs Hd.
  destruct (init_scopes_after env this w Hs Hd)
    as (this1 & Hres1 & Hshape & Hvalid1 & Hgrow1 & Hafter1 & Hperm1).
  exists this1. split; [exact Hres1|].
  set (w1 := snd (init env this w)) in *.
  assert (Hdef1 : default_scopes (config this1) = default_scopes (config this)).
  { by destruct Hshape as [->|[d ->]]. }
  assert (Hd1 : default_scopes (config this1) < length (heap w1)) by (rewrite Hdef1; lia).
  assert (Hres_eq : forall defaults,
            Spec.resolved_scopes env (config this1) defaults
            = Spec.resolved_scopes env (config this) defaults).
  { intros defaults. by destruct Hshape as [->|[d ->]]. }
  destruct (init_run env this1 w1 Hvalid1 Hd1)
    as (d2 & extra2 & _ & Hlt2 & _ & Hres2 & Hheap2).
  cbv zeta in Hres2, Hheap2.
  rewrite Hres_eq, Hdef1 in Hres2, Hheap2.
  pose proof (resolved_scopes_perm env (config this) _ _
                (Hperm1 (default_scopes (config this)) Hd)) as Hdisc.
  remember (Spec.resolved_scopes env (config this)
              (elements (heap w1) (default_scopes (config this)))) as D2.
  remember (Spec.resolved_scopes env (config this)
              (elements (heap w) (default_scopes (config this)))) as D1.
  assert (Hempty : D2 = [] <-> D1 = []).
  { split; intros ->.
    - symmetry in Hdisc. by apply Permutation_nil_r in Hdisc.
    - by apply Permutation_nil_r in Hdisc. }
  destruct (decide (D1 = [])) as [HD1|HD1].
  - assert (HD2 : D2 = []) by (by apply Hempty).
    rewrite HD2 in Hres2, Hheap2. rewrite Hres2, Hheap2. simpl.
    split; [reflexivity|]. by apply elements_old.
  - assert (HD2 : D2 <> []) by (intros H; by apply Hempty in H).
    assert (Hsorted : JS.sort D2 = elements (heap w1) (scopes (config this1))).
    { rewrite Hafter1. destruct (decide (D1 = [])); [done|]. by apply sort_eq_iff. }
    rewrite Hres2, Hheap2.
    destruct (decide (D2 = [])) as [|_]; [done|].
    destruct (decide (D2 <> [] /\
                JS.sort D2 <> JS.sort (elements (heap w1) (scopes (config this1)))))
      as [[_ Hdiff]|_].
    + exfalso. apply Hdiff. rewrite <- Hsorted. by rewrite sort_idempotent.
    + split; [reflexivity|].
      rewrite elements_insert_eq.
      * rewrite <- Hsorted. apply sort_idempotent.
      * rewrite length_insert, length_app. lia.
Qed.

End DiscoveryEffects.

Lemma init_preserves_arrays_witness :
  Provider.elements
    (Provider.heap
       (snd (Provider.init Example.offline (Example.provider None 0 1)
               (Example.world [["write"; "read"]; ["read"; "write"]])))) 0
  ≡ₚ ["write"; "read"].
Proof.
  destruct (init_preserves_arrays Example.offline (Example.provider None 0 1)
              (Example.world [["write"; "read"]; ["read"; "write"]]))
    as [Hperm _].
  - simpl. lia.
  - simpl. lia.
  - apply (Hperm 0). simpl. lia.
Defined.

Lemma init_scopes_sorted_witness :
  exists this',
    fst (Provider.init Example.offline (Example.provider None 0 1)
           (Example.world [["write"; "read"]; ["read"; "write"]])) = Effect.Ok this' /\
    Sorted String.le
      (Provider.elements
         (Provider.heap
            (snd (Provider.init Example.offline (Example.provider None 0 1)
                    (Example.world [["write"; "read"]; ["read"; "write"]]))))
         (Provider.scopes (Provider.config this'))).
Proof.
  destruct (init_scopes_sorted Example.offline (Example.provider None 0 1)
              (Example.world [["write"; "read"]; ["read"; "write"]]))
    as (this' & Hres & Hsorted & _).
  - simpl. lia.
  - simpl. lia.
  - discriminate.
  - by exists this'.
Defined.

Lemma init_idempotent_witness :
  exists this1,
    fst (Provider.init Example.online (Example.provider None 0 1)
           (Example.world [["openid"]; ["read"; "write"]])) = Effect.Ok this1 /\
    fst (Provider.init Example.online this1
           (snd (Provider.init Example.online (Example.provider None 0 1)
                   (Example.world [["openid"]; ["read"; "write"]])))) = Effect.Ok this1.
Proof.
  destruct (init_idempotent Example.online (Example.provider None 0 1)
              (Example.world [["openid"]; ["read"; "write"]]))
    as (this1 & Hfirst & Hsecond & _).
  - simpl. lia.
  - simpl. lia.
  - by exists this1.
Defined.

(** * Pages that are both login and authenticated *)

Section LoginShadow.
Import Url Effect Value Extractor Browser.
Context `{Parser}.

(** X21.  The login test comes first and shadows the authenticated test.
    A project page whose path goes on with [/auth], such as the project's
    own authentication settings [/dashboard/project/<ref>/auth/users], is
    classified both authenticated and login; [extractTokens] returns [null]
    there and evaluates no script. *)
Theorem login_test_shadows_auth_pages (wc : WebContents) (u : URL)
  (r rest : string) (evaluated : list string) :
  URL_new (getURL wc) None = Some u ->
  JS.includes (hostname u) "supabase.com" = true ->
  pathname u = "/dashboard/project/" +:+ r +:+ "/auth" +:+ rest ->
  isSupabaseAuthenticatedPage (getURL wc) = true /\
  isSupabaseLoginPage (getURL wc) = true /\
  extractTokens wc evaluated = (Ok None, evaluated).
Proof.
  intros Hu Hhost Hpath.
  assert (Hlogin : isSupabaseLoginPage (getURL wc) = true).
  { unfold isSupabaseLoginPage. rewrite Hu, Hhost. cbn [andb].
    assert (JS.includes (pathname u) "/auth" = true) as ->.
    { apply includes_spec. exists ("/dashboard/project/" +:+ r), rest.
      rewrite Hpath. by rewrite !append_assoc. }
    by rewrite !orb_true_r. }
  split; [|split; [exact Hlogin|]].
  - unfold isSupabaseAuthenticatedPage. rewrite Hu, Hhost. cbn [andb].
    assert (JS.startsWith (pathname u) "/dashboard/project/" = true) as ->.
    { apply startsWith_spec. by eexists. }
    reflexivity.
  - unfold extractTokens. by rewrite Hlogin.
Qed.
End LoginShadow.

Lemma login_test_shadows_auth_pages_witness :
  @Browser.extractTokens Url.reference
    (Example.page "https://supabase.com/dashboard/project/abc123/auth/users"
       (Effect.Ok Example.success_report) (Effect.Ok (Value.JString "sbp_0123"))) []
  = (Effect.Ok None, []).
Proof.
  eapply (@login_test_shadows_auth_pages Url.reference
            (Example.page "https://supabase.com/dashboard/project/abc123/auth/users"
               (Effect.Ok Example.success_report) (Effect.Ok (Value.JString "sbp_0123")))
            _ "abc123" "/users" []).
  - reflexivity.
  - reflexivity.
  - reflexivity.
Defined.

(** * The client metadata after initialization *)

Section MetadataAfterInit.
Import Url Effect Provider.

(** X22.  After [init] the client metadata announce the discovered scopes:
    the [scope] string is the discovered scopes in ascending order, joined
    by single spaces, or the configured scopes as they were when the
    discovery gave none.  The client name, the redirect URIs and the
    authentication method are those from before [init]. *)
Theorem clientMetadata_after_init (env : Env) (this : McpOAuthProvider) (w : World) :
  scopes (config this) < length (heap w) ->
  default_scopes (config this) < length (heap w) ->
  let discovered :=
    Spec.resolved_scopes env (config this)
      (elements (heap w) (default_scopes (config this))) in
  exists this' md md0,
    fst (init env this w) = Ok this' /\
    fst (clientMetadata this w) = Ok md0 /\
    fst (clientMetadata this' (snd (init env this w))) = Ok md /\
    ClientMetadata.scope md =
      JS.join (if decide (discovered = [])
               then elements (heap w) (scopes (config this))
               else JS.sort discovered) " " /\
    ClientMetadata.client_name md = ClientMetadata.client_name md0 /\
    ClientMetadata.redirect_uris md = ClientMetadata.redirect_uris md0 /\
    ClientMetadata.token_endpoint_auth_method md =
      ClientMetadata.token_endpoint_auth_method md0.
Proof.
  intros Hs Hd discovered.
  destruct (init_scopes_after env this w Hs Hd)
    as (this' & Hres & Hthis & _ & _ & Hafter & _).
  eexists this', _, _. split; [exact Hres|].
  split; [reflexivity|]. split; [reflexivity|].
  unfold clientMetadata, bind, read, ret. cbn [fst snd ClientMetadata.scope
    ClientMetadata.client_name ClientMetadata.redirect_uris
    ClientMetadata.token_endpoint_auth_method].
  split; [by rewrite Hafter|].
  by destruct Hthis as [->|[d ->]].
Qed.
End MetadataAfterInit.

Lemma clientMetadata_after_init_witness :
  exists this' md,
    fst (Provider.init Example.offline (Example.provider None 0 1)
           (Example.world [["write"; "read"]; ["read"; "write"]])) = Effect.Ok this' /\
    fst (Provider.clientMetadata this'
           (snd (Provider.init Example.offline (Example.provider None 0 1)
                   (Example.world [["write"; "read"]; ["read"; "write"]])))) = Effect.Ok md /\
    Provider.ClientMetadata.scope md = "read write".
Proof.
  destruct (clientMetadata_after_init Example.offline (Example.provider None 0 1)
              (Example.world [["write"; "read"]; ["read"; "write"]]))
    as (this' & md & md0 & Hinit & _ & Hmd & Hscope & _).
  - simpl. lia.
  - simpl. lia.
  - exists this', md. split; [exact Hinit|]. split; [exact Hmd|]. exact Hscope.
Defined.
